(* ===================================================================== *)
(*  Curvable AI assistant: the action parser and the action executor      *)
(*                                                                       *)
(*  A shallow embedding of                                               *)
(*    curvable-ai-assistant/src/aiService.ts                             *)
(*      suggestCodeActions (the line loop, lines 588-693)                *)
(*      parseCodeActions   (lines 700-715)                               *)
(*      createFile, createDirectory, deleteFile, deleteDirectory,        *)
(*      listDirectory, moveFile, copyFile, editFile (lines 102-324)      *)
(*      getFileContent (lines 432-450), isImportantFile (717-731),       *)
(*      readProjectFiles (959-993), IntentManager (1176-1295)            *)
(*    src/index.js                                                       *)
(*      the executeActions handler (lines 1729-1757)                     *)
(*      executeCodeAction (lines 1798-1863)                              *)
(*  together with the parts of the JavaScript runtime they call:         *)
(*  String.prototype.split / trim / match, and Node's path and fs.       *)
(*                                                                       *)
(*  The runtime is modelled as documented: strings are sequences of      *)
(*  UTF-16 code units, regular expressions are matched leftmost with     *)
(*  greedy backtracking, paths are POSIX paths, and the file system is a *)
(*  tree of files and directories without links, permissions or quotas,  *)
(*  so that an fs call fails only for the shape of the tree.             *)
(* ===================================================================== *)

From Stdlib Require Import String Ascii NArith List Bool Lia QArith Qcanon.
From stdpp Require Import base option list gmap.
Import ListNotations.

(* ===================================================================== *)
(** * JavaScript strings                                                  *)
(* ===================================================================== *)

(** A JavaScript string is a sequence of UTF-16 code units. *)
Abbreviation jstring := (list N).

Module JsString.

(** Literals: the code units of an ASCII literal. *)
Fixpoint js (s : string) : jstring :=
  match s with
  | EmptyString => []
  | String a s' => N_of_ascii a :: js s'
  end.

Definition LF : N := 10.

Fixpoint str_eqb (a b : jstring) : bool :=
  match a, b with
  | [], [] => true
  | x :: a', y :: b' => N.eqb x y && str_eqb a' b'
  | _, _ => false
  end.

(** ECMAScript WhiteSpace and LineTerminator code points, the set that
    [String.prototype.trim] strips. *)
Definition is_ws (c : N) : bool :=
  (N.eqb c 9 || N.eqb c 10 || N.eqb c 11 || N.eqb c 12 || N.eqb c 13
   || N.eqb c 32 || N.eqb c 160 || N.eqb c 5760
   || (N.leb 8192 c && N.leb c 8202)
   || N.eqb c 8232 || N.eqb c 8233 || N.eqb c 8239 || N.eqb c 8287
   || N.eqb c 12288 || N.eqb c 65279)%bool.

Fixpoint trimStart (s : jstring) : jstring :=
  match s with
  | c :: s' => if is_ws c then trimStart s' else s
  | [] => []
  end.

Definition trimEnd (s : jstring) : jstring := rev (trimStart (rev s)).

(** [s.trim()] *)
Definition trim (s : jstring) : jstring := trimEnd (trimStart s).

(** Truthiness of a string: the empty string is falsy. *)
Definition truthy (s : jstring) : bool :=
  match s with [] => false | _ :: _ => true end.

(** [s.split(sep)] for a one-unit separator: always at least one piece. *)
Fixpoint split_on (sep : N) (s : jstring) : list jstring :=
  match s with
  | [] => [[]]
  | c :: s' =>
      if N.eqb c sep then [] :: split_on sep s'
      else match split_on sep s' with
           | l :: ls => (c :: l) :: ls
           | [] => [[c]]
           end
  end.

(** [l.join(sep)] for a one-unit separator. *)
Fixpoint join_with (sep : N) (l : list jstring) : jstring :=
  match l with
  | [] => []
  | [x] => x
  | x :: l' => x ++ [sep] ++ join_with sep l'
  end.

(** [s.split('\n')] *)
Definition split_lines (s : jstring) : list jstring := split_on LF s.

(** [s.toLowerCase()] on the ASCII range (the only range the labels of
    the action language use). *)
Definition lower_cu (c : N) : N :=
  if (N.leb 65 c && N.leb c 90)%bool then (c + 32)%N else c.
Definition toLowerCase (s : jstring) : jstring := map lower_cu s.

End JsString.
Export JsString.

(* ===================================================================== *)
(** * The regular expressions of the action language                      *)
(* ===================================================================== *)

Module Regex.

(** The patterns of aiService.ts are sequences of three kinds of items:
    a literal code unit, a capturing group [([^c]+)] (one or more code
    units other than [c], greedy), and a capturing alternation of
    literals [(A|B|...)]. *)
Inductive item :=
| Chr (c : N)
| NotPlus (c : N)
| Alt (alts : list jstring).

Definition pattern := list item.

Definition lit (s : string) : pattern := map Chr (js s).

(** Length of the longest prefix free of [c]. *)
Fixpoint run (c : N) (s : jstring) : nat :=
  match s with
  | x :: s' => if N.eqb x c then 0 else S (run c s')
  | [] => 0
  end.

(** Greedy quantifier with backtracking: try the longest repetition
    first, then shorter ones, never fewer than one code unit.  The
    continuation yields the text matched by the rest of the pattern and
    its captures. *)
Fixpoint backtrack (k : nat) (cont : jstring -> option (jstring * list jstring))
         (s : jstring) : option (jstring * list jstring) :=
  match k with
  | 0 => None
  | S k' =>
      match cont (drop k s) with
      | Some (w, gs) => Some (take k s ++ w, take k s :: gs)
      | None => backtrack k' cont s
      end
  end.

Fixpoint strip_prefix (p s : jstring) : option jstring :=
  match p, s with
  | [], _ => Some s
  | x :: p', y :: s' => if N.eqb x y then strip_prefix p' s' else None
  | _ :: _, [] => None
  end.

(** Alternatives are tried left to right. *)
Fixpoint first_alt (alts : list jstring)
         (cont : jstring -> option (jstring * list jstring))
         (s : jstring) : option (jstring * list jstring) :=
  match alts with
  | [] => None
  | a :: alts' =>
      match strip_prefix a s with
      | Some s' =>
          match cont s' with
          | Some (w, gs) => Some (a ++ w, a :: gs)
          | None => first_alt alts' cont s
          end
      | None => first_alt alts' cont s
      end
  end.

(** Match the pattern at the start of [s]: the matched text and the
    captures, in order. *)
Fixpoint match_here (p : pattern) (s : jstring) : option (jstring * list jstring) :=
  match p with
  | [] => Some ([], [])
  | Chr c :: p' =>
      match s with
      | x :: s' =>
          if N.eqb x c then
            match match_here p' s' with
            | Some (w, gs) => Some (x :: w, gs)
            | None => None
            end
          else None
      | [] => None
      end
  | NotPlus c :: p' => backtrack (run c s) (match_here p') s
  | Alt alts :: p' => first_alt alts (match_here p') s
  end.

(** [RegExp.prototype.exec] from the start of [s]: the leftmost match.
    The result is the text before the match, the match array
    [m[0], m[1], ...] and the text after the match. *)
Fixpoint exec (p : pattern) (s : jstring) : option (jstring * list jstring * jstring) :=
  match match_here p s with
  | Some (w, gs) => Some ([], w :: gs, drop (length w) s)
  | None =>
      match s with
      | [] => None
      | x :: s' =>
          match exec p s' with
          | Some (pre, m, post) => Some (x :: pre, m, post)
          | None => None
          end
      end
  end.

(** [line.match(re)] for a regular expression without the g flag. *)
Definition re_match (p : pattern) (s : jstring) : option (list jstring) :=
  match exec p s with
  | Some (_, m, _) => Some m
  | None => None
  end.

(** [m[i]] of a match array. *)
Definition group (m : list jstring) (i : nat) : jstring := nth i m [].

End Regex.
Export Regex.

(* ===================================================================== *)
(** * The action parser: the line loop of suggestCodeActions              *)
(* ===================================================================== *)

Module Parser.

(** interface CodeAction, aiService.ts lines 12-19.  An absent optional
    field ([undefined]) is [None]. *)
Inductive ActionType :=
| CREATE_FILE | CREATE_DIRECTORY | DELETE_FILE | DELETE_DIRECTORY
| MOVE_FILE | COPY_FILE | EDIT_FILE.

Definition ActionType_eqb (a b : ActionType) : bool :=
  match a, b with
  | CREATE_FILE, CREATE_FILE | CREATE_DIRECTORY, CREATE_DIRECTORY
  | DELETE_FILE, DELETE_FILE | DELETE_DIRECTORY, DELETE_DIRECTORY
  | MOVE_FILE, MOVE_FILE | COPY_FILE, COPY_FILE | EDIT_FILE, EDIT_FILE => true
  | _, _ => false
  end.

Record CodeAction := mkAction {
  type : ActionType;
  path : jstring;
  content : option jstring;
  description : jstring;
  sourcePath : option jstring;
  destinationPath : option jstring
}.

Definition COLON : N := 58.
Definition RBRACKET : N := 93.

(** /\[LABEL:([^:]+):([^\]]+)\]/ *)
Definition re_two (label : string) : pattern :=
  lit "[" ++ lit label ++ lit ":" ++ [NotPlus COLON] ++ lit ":"
      ++ [NotPlus RBRACKET] ++ lit "]".

(** /\[LABEL:([^:]+):([^:]+):([^\]]+)\]/ *)
Definition re_three (label : string) : pattern :=
  lit "[" ++ lit label ++ lit ":" ++ [NotPlus COLON] ++ lit ":"
      ++ [NotPlus COLON] ++ lit ":" ++ [NotPlus RBRACKET] ++ lit "]".

Definition re_createFile := re_two "CREATE_FILE".
Definition re_createDir := re_two "CREATE_DIRECTORY".
Definition re_createFolder := re_two "CREATE_FOLDER".
Definition re_deleteFile := re_two "DELETE_FILE".
Definition re_deleteDir := re_two "DELETE_DIRECTORY".
Definition re_moveFile := re_three "MOVE_FILE".
Definition re_copyFile := re_three "COPY_FILE".
Definition re_editFile := re_two "EDIT_FILE".
(** /\[FILE_CONTENT:([^\]]+)\]/ *)
Definition re_fileContentStart : pattern :=
  lit "[FILE_CONTENT:" ++ [NotPlus RBRACKET] ++ lit "]".
(** /\[\/FILE_CONTENT\]/ *)
Definition re_fileContentEnd : pattern := lit "[/FILE_CONTENT]".

(** The local variables of the loop: [actions], [currentContent],
    [currentFilePath]. *)
Record PState := mkPState {
  actions : list CodeAction;
  currentContent : jstring;
  currentFilePath : jstring
}.

Definition init : PState := mkPState [] [] [].

(** [actions.push({type, path, description})] *)
Definition push_simple (st : PState) (t : ActionType) (m : list jstring) : PState :=
  mkPState (actions st ++ [mkAction t (group m 1) None (group m 2) None None])
           (currentContent st) (currentFilePath st).

(** [actions.push({type, sourcePath, destinationPath, path, description})] *)
Definition push_transfer (st : PState) (t : ActionType) (m : list jstring) : PState :=
  mkPState (actions st ++ [mkAction t (group m 1) None (group m 3)
                                    (Some (group m 1)) (Some (group m 2))])
           (currentContent st) (currentFilePath st).

(** The elements of [actions] are objects; [filter] and [reverse] build
    new arrays but share the objects, so the object that [find] returns
    is the one stored in [actions].  An object is identified here by its
    index in [actions]. *)
Definition refs (acts : list CodeAction) : list (nat * CodeAction) :=
  zip (seq 0 (length acts)) acts.

(** actions.filter(a => a.type === 'CREATE_FILE').reverse()
           .find(a => a.path === currentFilePath) *)
Definition lastCreateFileAction (acts : list CodeAction) (cfp : jstring)
  : option (nat * CodeAction) :=
  find (fun r => str_eqb (path (snd r)) cfp)
       (rev (filter (fun r => ActionType_eqb (type (snd r)) CREATE_FILE = true)
                    (refs acts))).

Definition set_content (a : CodeAction) (c : jstring) : CodeAction :=
  mkAction (type a) (path a) (Some c) (description a)
           (sourcePath a) (destinationPath a).

(** The [fileContentEnd] branch, lines 672-686. *)
Definition close_block (st : PState) : PState :=
  let acts :=
    match lastCreateFileAction (actions st) (currentFilePath st) with
    | Some (i, a) => <[i := set_content a (trim (currentContent st))]> (actions st)
    | None => actions st
    end in
  mkPState acts [] [].

(** The body of [for (const line of lines)], lines 593-690. *)
Definition parse_line (st : PState) (line : jstring) : PState :=
  let createFileMatch := re_match re_createFile line in
  let createDirMatch := re_match re_createDir line in
  let createFolderMatch := re_match re_createFolder line in
  let deleteFileMatch := re_match re_deleteFile line in
  let deleteDirMatch := re_match re_deleteDir line in
  let moveFileMatch := re_match re_moveFile line in
  let copyFileMatch := re_match re_copyFile line in
  let editFileMatch := re_match re_editFile line in
  let fileContentStart := re_match re_fileContentStart line in
  let fileContentEnd := re_match re_fileContentEnd line in
  match createFileMatch with Some m => push_simple st CREATE_FILE m | None =>
  match createDirMatch with Some m => push_simple st CREATE_DIRECTORY m | None =>
  match createFolderMatch with Some m => push_simple st CREATE_DIRECTORY m | None =>
  match deleteFileMatch with Some m => push_simple st DELETE_FILE m | None =>
  match deleteDirMatch with Some m => push_simple st DELETE_DIRECTORY m | None =>
  match moveFileMatch with Some m => push_transfer st MOVE_FILE m | None =>
  match copyFileMatch with Some m => push_transfer st COPY_FILE m | None =>
  match editFileMatch with Some m => push_simple st EDIT_FILE m | None =>
  match fileContentStart with
  | Some m => mkPState (actions st) [] (group m 1)
  | None =>
  match fileContentEnd with
  | Some _ => close_block st
  | None =>
      if truthy (currentFilePath st) && truthy (trim line) then
        mkPState (actions st) (currentContent st ++ line ++ [LF]) (currentFilePath st)
      else st
  end end end end end end end end end end.

Definition run_lines (st : PState) (lines : list jstring) : PState :=
  fold_left parse_line lines st.

(** What suggestCodeActions returns for a given model response. *)
Definition suggestCodeActions (response : jstring) : list CodeAction :=
  actions (run_lines init (split_lines response)).

(** parseCodeActions, lines 700-715, the parser behind [chat].  Its
    objects carry [actionType.toLowerCase() as any] in their type field,
    a string outside the union of interface CodeAction, so they get a
    record of their own. *)
Record ChatAction := mkChatAction {
  chat_type : jstring;
  chat_path : jstring;
  chat_description : jstring
}.

(** /\[(CREATE_FILE|EDIT_FILE|DELETE_FILE|RENAME_FILE|CREATE_FOLDER):([^:]+):([^\]]+)\]/g *)
Definition actionRegex : pattern :=
  lit "[" ++ [Alt [js "CREATE_FILE"; js "EDIT_FILE"; js "DELETE_FILE";
                   js "RENAME_FILE"; js "CREATE_FOLDER"]]
      ++ lit ":" ++ [NotPlus COLON] ++ lit ":" ++ [NotPlus RBRACKET] ++ lit "]".

(** while ((match = actionRegex.exec(response)) !== null): every round
    resumes after the previous match.  A match is never empty, so the
    rest shrinks and [fuel] rounds suffice when [fuel] exceeds its
    length. *)
Fixpoint exec_loop (fuel : nat) (rest : jstring) : list ChatAction :=
  match fuel with
  | 0 => []
  | S fuel' =>
      match exec actionRegex rest with
      | Some (_, m, post) =>
          mkChatAction (toLowerCase (group m 1)) (trim (group m 2)) (trim (group m 3))
            :: exec_loop fuel' post
      | None => []
      end
  end.

Definition parseCodeActions (response : jstring) : list ChatAction :=
  exec_loop (S (length response)) response.

End Parser.
Export Parser.


(* ===================================================================== *)
(** * Node's path module (POSIX flavour)                                  *)
(* ===================================================================== *)

Module NodePath.

Definition SLASH : N := 47.
Definition DOTDOT : jstring := js "..".
Definition DOT : jstring := js ".".

(** A normalized path, kept in parsed form: whether it starts at the
    root, its segments, and whether it ends in a separator.  [render]
    gives back the string Node returns. *)
Record npath := mkPath {
  absolute : bool;
  segs : list jstring;
  trailing : bool
}.

(** normalizeString of lib/path.js, on segments; [acc] is the result so
    far, last segment first.  Empty and "." segments vanish; ".." pops
    the last segment unless there is none or it is ".." itself, in which
    case it is kept only when the path may climb above its start. *)
Fixpoint normalize_segs (allowAboveRoot : bool) (acc : list jstring)
         (l : list jstring) : list jstring :=
  match l with
  | [] => rev acc
  | x :: l' =>
      if str_eqb x [] || str_eqb x DOT then normalize_segs allowAboveRoot acc l'
      else if str_eqb x DOTDOT then
        match acc with
        | y :: acc' =>
            if str_eqb y DOTDOT
            then normalize_segs allowAboveRoot
                   (if allowAboveRoot then DOTDOT :: acc else acc) l'
            else normalize_segs allowAboveRoot acc' l'
        | [] =>
            normalize_segs allowAboveRoot
              (if allowAboveRoot then [DOTDOT] else []) l'
        end
      else normalize_segs allowAboveRoot (x :: acc) l'
  end.

Definition starts_with_slash (p : jstring) : bool :=
  match p with c :: _ => N.eqb c SLASH | [] => false end.

Definition ends_with_slash (p : jstring) : bool :=
  match rev p with c :: _ => N.eqb c SLASH | [] => false end.

(** path.normalize *)
Definition normalize (p : jstring) : npath :=
  match p with
  | [] => mkPath false [] false
  | _ =>
      let isAbsolute := starts_with_slash p in
      let trailingSeparator := ends_with_slash p in
      let sg := normalize_segs (negb isAbsolute) [] (split_on SLASH p) in
      match sg with
      | [] => if isAbsolute then mkPath true [] false
              else mkPath false [] trailingSeparator
      | _ => mkPath isAbsolute sg trailingSeparator
      end
  end.

(** path.join(a, b): the non-empty arguments joined by "/", normalized. *)
Definition join (a b : jstring) : npath :=
  match a, b with
  | [], [] => mkPath false [] false
  | [], _ => normalize b
  | _, [] => normalize a
  | _, _ => normalize (a ++ [SLASH] ++ b)
  end.

(** path.dirname of a normalized path. *)
Definition dirname (p : npath) : npath :=
  mkPath (absolute p) (removelast (segs p)) false.

Definition render (p : npath) : jstring :=
  match segs p with
  | [] => if absolute p then js "/" else if trailing p then js "./" else js "."
  | sg => (if absolute p then js "/" else [])
            ++ join_with SLASH sg ++ (if trailing p then js "/" else [])
  end.

End NodePath.
Export NodePath.

(* ===================================================================== *)
(** * The file system behind Node's fs module                             *)
(* ===================================================================== *)

Module NodeFs.

(** A directory tree: every entry is named by its segments from the
    root.  The root itself is a directory and has no entry. *)
Inductive node :=
| File (data : jstring)
| Dir.

Abbreviation tree := (gmap (list jstring) node).

Inductive errno := ENOENT | ENOTDIR | EISDIR | EEXIST | ENOTEMPTY | EINVAL.

(** What a JavaScript function can throw here: [new Error(message)] of
    the service itself, or a system error of fs. *)
Inductive exn :=
| JsError (message : jstring)
| SystemError (code : errno).

Inductive outcome (A : Type) :=
| Return (v : A)
| Throw (e : exn).
Arguments Return {A} v.
Arguments Throw {A} e.

(** Computations over the file system; the state survives a throw. *)
Definition M (A : Type) : Type := tree -> outcome A * tree.

Definition ret {A} (v : A) : M A := fun t => (Return v, t).
Definition throw {A} (e : exn) : M A := fun t => (Throw e, t).
Definition bind {A B} (m : M A) (k : A -> M B) : M B :=
  fun t => match m t with
           | (Return v, t') => k v t'
           | (Throw e, t') => (Throw e, t')
           end.
(** try { m } catch (e) { handler(e) } *)
Definition try_catch {A} (m : M A) (handler : exn -> M A) : M A :=
  fun t => match m t with
           | (Return v, t') => (Return v, t')
           | (Throw e, t') => handler e t'
           end.

Definition node_at (t : tree) (k : list jstring) : option node :=
  match k with
  | [] => Some Dir
  | _ => t !! k
  end.

(** [k'] without its prefix [k], when [k] is a prefix of [k']. *)
Fixpoint below (k k' : list jstring) : option (list jstring) :=
  match k, k' with
  | [], _ => Some k'
  | x :: k1, y :: k1' => if str_eqb x y then below k1 k1' else None
  | _ :: _, [] => None
  end.

Definition under (k k' : list jstring) : bool :=
  match below k k' with Some _ => true | None => false end.

Definition segs_eqb (k k' : list jstring) : bool :=
  match below k k' with Some [] => true | _ => false end.

Section Calls.
(** The working directory of the process, against which fs resolves a
    relative path. *)
Variable cwd : list jstring.

Definition resolve (p : npath) : list jstring :=
  if absolute p then segs p
  else normalize_segs false (rev cwd) (segs p).

(** What a path names: a path that ends in a separator names only a
    directory. *)
Definition stat (t : tree) (p : npath) : outcome node :=
  match node_at t (resolve p) with
  | None => Throw (SystemError ENOENT)
  | Some Dir => Return Dir
  | Some (File d) =>
      if trailing p then Throw (SystemError ENOTDIR) else Return (File d)
  end.

(** fs.existsSync(p) *)
Definition existsSync (p : npath) : M bool :=
  fun t => match stat t p with
           | Return _ => (Return true, t)
           | Throw _ => (Return false, t)
           end.

(** mkdir -p along the segments [rest] below [pre]. *)
Fixpoint mkdir_p (t : tree) (pre rest : list jstring) : outcome unit * tree :=
  match rest with
  | [] => (Return tt, t)
  | x :: rest' =>
      let k := pre ++ [x] in
      match t !! k with
      | Some (File _) =>
          (Throw (SystemError (match rest' with [] => EEXIST | _ => ENOTDIR end)), t)
      | Some Dir => mkdir_p t k rest'
      | None => mkdir_p (<[k := Dir]> t) k rest'
      end
  end.

(** fs.mkdirSync(p, { recursive: true }) *)
Definition mkdirSync_recursive (p : npath) : M unit :=
  fun t => mkdir_p t [] (resolve p).

(** Create or truncate the file [k] and write [data]. *)
Definition write_at (k : list jstring) (data : jstring) : M unit :=
  fun t =>
    match node_at t k with
    | Some Dir => (Throw (SystemError EISDIR), t)
    | Some (File _) => (Return tt, <[k := File data]> t)
    | None =>
        match node_at t (removelast k) with
        | None => (Throw (SystemError ENOENT), t)
        | Some (File _) => (Throw (SystemError ENOTDIR), t)
        | Some Dir => (Return tt, <[k := File data]> t)
        end
    end.

(** fs.writeFileSync(p, data, 'utf8') *)
Definition writeFileSync (p : npath) (data : jstring) : M unit :=
  fun t =>
    if trailing p then
      (Throw (SystemError (match node_at t (resolve p) with
                           | Some (File _) => ENOTDIR
                           | _ => EISDIR
                           end)), t)
    else write_at (resolve p) data t.

(** fs.readFileSync(p, 'utf8') *)
Definition readFileSync (p : npath) : M jstring :=
  fun t => match stat t p with
           | Return (File d) => (Return d, t)
           | Return Dir => (Throw (SystemError EISDIR), t)
           | Throw e => (Throw e, t)
           end.

(** fs.unlinkSync(p) *)
Definition unlinkSync (p : npath) : M unit :=
  fun t => match stat t p with
           | Return (File _) => (Return tt, delete (resolve p) t)
           | Return Dir => (Throw (SystemError EISDIR), t)
           | Throw e => (Throw e, t)
           end.

(** The tree without [k] and everything below it. *)
Definition remove_subtree (k : list jstring) (t : tree) : tree :=
  filter (fun e => under k (fst e) = false) t.

(** fs.rmSync(p, { recursive: true, force: true }) *)
Definition rmSync_recursive_force (p : npath) : M unit :=
  fun t => match stat t p with
           | Return _ => (Return tt, remove_subtree (resolve p) t)
           | Throw (SystemError ENOENT) => (Return tt, t)
           | Throw e => (Throw e, t)
           end.

(** The entries of [t] with the subtree at [ks] re-rooted at [kd]. *)
Definition move_subtree (ks kd : list jstring) (t : tree) : tree :=
  list_to_map
    (map (fun e => (match below ks (fst e) with
                    | Some suffix => kd ++ suffix
                    | None => fst e
                    end, snd e))
         (map_to_list t)).

Definition has_children (t : tree) (k : list jstring) : bool :=
  existsb (fun e => under k (fst e) && negb (segs_eqb k (fst e))) (map_to_list t).

(** fs.renameSync(src, dst), after rename(2). *)
Definition renameSync (src dst : npath) : M unit :=
  fun t =>
    let ks := resolve src in
    let kd := resolve dst in
    match stat t src with
    | Throw e => (Throw e, t)
    | Return (File d) =>
        if trailing dst then (Throw (SystemError ENOTDIR), t)
        else if segs_eqb ks kd then (Return tt, t)
        else match write_at kd d (delete ks t) with
             | (Return _, t') => (Return tt, t')
             | (Throw e, _) => (Throw e, t)
             end
    | Return Dir =>
        if segs_eqb ks kd then (Return tt, t)
        else if under ks kd then (Throw (SystemError EINVAL), t)
        else match kd with
        | [] => (Throw (SystemError ENOTEMPTY), t)
        | _ =>
          match node_at t (removelast kd) with
          | None => (Throw (SystemError ENOENT), t)
          | Some (File _) => (Throw (SystemError ENOTDIR), t)
          | Some Dir =>
              match t !! kd with
              | Some (File _) => (Throw (SystemError ENOTDIR), t)
              | Some Dir =>
                  if has_children t kd then (Throw (SystemError ENOTEMPTY), t)
                  else (Return tt, move_subtree ks kd t)
              | None => (Return tt, move_subtree ks kd t)
              end
          end
        end
    end.

(** fs.copyFileSync(src, dst) *)
Definition copyFileSync (src dst : npath) : M unit :=
  bind (readFileSync src) (fun d => writeFileSync dst d).

End Calls.

End NodeFs.
Export NodeFs.

(* ===================================================================== *)
(** * The action executor: the file operations of AIService               *)
(* ===================================================================== *)

Module AIService.

Declare Scope fs_scope.
Delimit Scope fs_scope with fs.
Notation "x <- m ;; k" := (bind m (fun x => k))
  (at level 100, m at next level, k at level 200, right associativity) : fs_scope.
Notation "m ;; k" := (bind m (fun _ => k))
  (at level 100, k at level 200, right associativity) : fs_scope.
Local Open Scope fs_scope.

(** The values the operations resolve to: strings and booleans. *)
Inductive jsval :=
| VString (s : jstring)
| VBoolean (b : bool).

(** The host the service runs in: the fsPath of each open workspace
    folder (none when [vscode.workspace.workspaceFolders] is undefined
    or empty), the working directory of the extension host, and whether
    [vscode.window.showTextDocument] resolves or rejects for a file. *)
Record Host := mkHost {
  workspaceFolders : list jstring;
  cwd : list jstring;
  showTextDocument_rejects : tree -> npath -> option exn
}.

Section Service.
Variable h : Host.

(** The guard that opens every operation, and workspaceFolders[0].uri.fsPath. *)
Definition workspaceRoot : M jstring :=
  match workspaceFolders h with
  | [] => throw (JsError (js "No workspace folder open"))
  | folder :: _ => ret folder
  end.

(** await vscode.window.showTextDocument(vscode.Uri.file(p)) *)
Definition showTextDocument (p : npath) : M unit :=
  fun t => match showTextDocument_rejects h t p with
           | Some e => (Throw e, t)
           | None => (Return tt, t)
           end.

(** catch (error) { console.error(...); throw error; } *)
Definition rethrow {A} (error : exn) : M A := throw error.

(** lines 102-140 *)
Definition createFile (filePath content : jstring) : M jsval :=
  try_catch
    (root <- workspaceRoot;;
     let fullPath := join root filePath in
     let dirPath := dirname fullPath in
     dirExists <- existsSync (cwd h) dirPath;;
     (if negb dirExists then mkdirSync_recursive (cwd h) dirPath else ret tt);;
     writeFileSync (cwd h) fullPath content;;
     try_catch (showTextDocument fullPath) (fun openError => ret tt);;
     ret (VString (js "File " ++ filePath ++ js " created successfully")))
    rethrow.

(** lines 142-161 *)
Definition createDirectory (dirPath : jstring) : M jsval :=
  try_catch
    (root <- workspaceRoot;;
     let fullPath := join root dirPath in
     pathExists <- existsSync (cwd h) fullPath;;
     if pathExists then
       ret (VString (js "Directory " ++ dirPath ++ js " already exists"))
     else
       mkdirSync_recursive (cwd h) fullPath;;
       ret (VString (js "Directory " ++ dirPath ++ js " created successfully")))
    rethrow.

(** lines 163-182 *)
Definition deleteFile (filePath : jstring) : M jsval :=
  try_catch
    (root <- workspaceRoot;;
     let fullPath := join root filePath in
     pathExists <- existsSync (cwd h) fullPath;;
     if negb pathExists then
       throw (JsError (js "File " ++ filePath ++ js " does not exist"))
     else
       unlinkSync (cwd h) fullPath;;
       ret (VString (js "File " ++ filePath ++ js " deleted successfully")))
    rethrow.

(** lines 184-203 *)
Definition deleteDirectory (dirPath : jstring) : M jsval :=
  try_catch
    (root <- workspaceRoot;;
     let fullPath := join root dirPath in
     pathExists <- existsSync (cwd h) fullPath;;
     if negb pathExists then
       throw (JsError (js "Directory " ++ dirPath ++ js " does not exist"))
     else
       rmSync_recursive_force (cwd h) fullPath;;
       ret (VString (js "Directory " ++ dirPath ++ js " deleted successfully")))
    rethrow.

(** lines 240-266 *)
Definition moveFile (sourcePath destinationPath : jstring) : M jsval :=
  try_catch
    (root <- workspaceRoot;;
     let fullSourcePath := join root sourcePath in
     let fullDestPath := join root destinationPath in
     sourceExists <- existsSync (cwd h) fullSourcePath;;
     if negb sourceExists then
       throw (JsError (js "Source file " ++ sourcePath ++ js " does not exist"))
     else
       let destDir := dirname fullDestPath in
       destDirExists <- existsSync (cwd h) destDir;;
       (if negb destDirExists then mkdirSync_recursive (cwd h) destDir else ret tt);;
       renameSync (cwd h) fullSourcePath fullDestPath;;
       ret (VString (js "File moved from " ++ sourcePath ++ js " to " ++ destinationPath)))
    rethrow.

(** lines 268-294 *)
Definition copyFile (sourcePath destinationPath : jstring) : M jsval :=
  try_catch
    (root <- workspaceRoot;;
     let fullSourcePath := join root sourcePath in
     let fullDestPath := join root destinationPath in
     sourceExists <- existsSync (cwd h) fullSourcePath;;
     if negb sourceExists then
       throw (JsError (js "Source file " ++ sourcePath ++ js " does not exist"))
     else
       let destDir := dirname fullDestPath in
       destDirExists <- existsSync (cwd h) destDir;;
       (if negb destDirExists then mkdirSync_recursive (cwd h) destDir else ret tt);;
       copyFileSync (cwd h) fullSourcePath fullDestPath;;
       ret (VString (js "File copied from " ++ sourcePath ++ js " to " ++ destinationPath)))
    rethrow.

(** lines 296-324 *)
Definition editFile (filePath content : jstring) : M jsval :=
  try_catch
    (root <- workspaceRoot;;
     let fullPath := join root filePath in
     pathExists <- existsSync (cwd h) fullPath;;
     if negb pathExists then
       throw (JsError (js "File " ++ filePath ++ js " does not exist"))
     else
       currentContent <- readFileSync (cwd h) fullPath;;
       writeFileSync (cwd h) fullPath content;;
       showTextDocument fullPath;;
       ret (VBoolean true))
    rethrow.

(** lines 432-450 *)
Definition getFileContent (filePath : jstring) : M jstring :=
  try_catch
    (root <- workspaceRoot;;
     let fullPath := join root filePath in
     pathExists <- existsSync (cwd h) fullPath;;
     if negb pathExists then
       throw (JsError (js "File " ++ filePath ++ js " does not exist"))
     else readFileSync (cwd h) fullPath)
    rethrow.

End Service.

End AIService.
Export AIService.


(* ===================================================================== *)
(** * Vocabulary of the statements                                        *)
(* ===================================================================== *)

(** Number of occurrences of a code unit. *)
Fixpoint occ (c : N) (s : jstring) : nat :=
  match s with
  | [] => 0
  | x :: s' => (if N.eqb x c then 1 else 0) + occ c s'
  end.

(** Number of literal items [Chr c] in a pattern. *)
Fixpoint lit_occ (c : N) (p : pattern) : nat :=
  match p with
  | [] => 0
  | Chr x :: p' => (if N.eqb x c then 1 else 0) + lit_occ c p'
  | _ :: p' => lit_occ c p'
  end.

Definition LBRACKET : N := 91.

(** The line matches one of the eight header patterns. *)
Definition is_header (line : jstring) : bool :=
  existsb (fun re => match re_match re line with Some _ => true | None => false end)
          [re_createFile; re_createDir; re_createFolder; re_deleteFile;
           re_deleteDir; re_moveFile; re_copyFile; re_editFile].

(** The line is one on which the loop takes its [fileContentStart] branch,
    opening a block for [p]. *)
Definition opens_block (line p : jstring) : Prop :=
  is_header line = false /\
  exists m, re_match re_fileContentStart line = Some m /\ group m 1 = p.

(** The line is one on which the loop takes its [fileContentEnd] branch. *)
Definition closes_block (line : jstring) : Prop :=
  is_header line = false /\
  re_match re_fileContentStart line = None /\
  re_match re_fileContentEnd line <> None.

(** The line carries no marker at all. *)
Definition plain (line : jstring) : Prop :=
  is_header line = false /\
  re_match re_fileContentStart line = None /\
  re_match re_fileContentEnd line = None.

(** The line is not blank: [line.trim()] is truthy. *)
Definition nonblank (line : jstring) : Prop := truthy (trim line) = true.

(** What the loop buffers from the lines between the markers of a block:
    the lines that are not blank, each followed by a newline. *)
Definition buffered (body : list jstring) : jstring :=
  concat (map (fun l => l ++ [LF]) (filter nonblank body)).


(** [a] is a CREATE_FILE action for [p]. *)
Definition creates (p : jstring) (a : CodeAction) : Prop :=
  type a = CREATE_FILE /\ path a = p.

(** [k] lies in the workspace whose root is [root]. *)
Definition inside (root : jstring) (k : list jstring) : bool :=
  under (segs (normalize root)) k.

(** ** Sample data *)

(** A host with the workspace /ws open, in which showTextDocument always
    resolves. *)
Definition host_ws : Host := mkHost [js "/ws"] [] (fun _ _ => None).

(** The tree that holds the single file /ws/f.txt. *)
Definition tree_f : tree := {[ [js "ws"; js "f.txt"] := File (js "old") ]}.

(** The tree that holds the single file /secret.txt, outside /ws. *)
Definition tree_secret : tree := {[ [js "secret.txt"] := File (js "key") ]}.

Definition action_f : CodeAction :=
  mkAction CREATE_FILE (js "f") None (js "d") None None.



(** ** Vocabulary for the further properties of the parser *)

(** The action with its content left out. *)
Definition erase_content (a : CodeAction) : CodeAction :=
  mkAction (type a) (path a) None (description a) (sourcePath a) (destinationPath a).

(** The code units at which the capturing groups of a pattern stop. *)
Fixpoint stops (p : pattern) : list N :=
  match p with
  | [] => []
  | NotPlus c :: p' => c :: stops p'
  | _ :: p' => stops p'
  end.

Fixpoint no_alt (p : pattern) : bool :=
  match p with
  | [] => true
  | Alt _ :: _ => false
  | _ :: p' => no_alt p'
  end.

(** The fields of an action as the header patterns can capture them. *)
Definition fields_ok (a : CodeAction) : Prop :=
  path a <> [] /\ occ COLON (path a) = 0 /\
  description a <> [] /\ occ RBRACKET (description a) = 0 /\
  match type a with
  | MOVE_FILE | COPY_FILE =>
      sourcePath a = Some (path a) /\
      exists d, destinationPath a = Some d /\ d <> [] /\ occ COLON d = 0
  | _ => sourcePath a = None /\ destinationPath a = None
  end.

(** Content is bound to CREATE_FILE actions only, and is trimmed. *)
Definition content_ok (a : CodeAction) : Prop :=
  content a = None \/
  (type a = CREATE_FILE /\ exists c, content a = Some c /\ trim c = c).

(* ===================================================================== *)
(** * More of AIService: readProjectFiles and isImportantFile             *)
(* ===================================================================== *)

Module AIServiceReads.

Local Open Scope fs_scope.

(** A plain object used as a dictionary from strings to strings. *)
Abbreviation dict := (gmap jstring jstring).

(** [o[k] = v] on an object created by [{}], for a string [v].  The key
    "__proto__" reaches the setter inherited from Object.prototype, which
    ignores a value that is neither an object nor null: no property is
    created. *)
Definition dict_set (k v : jstring) (o : dict) : dict :=
  if str_eqb k (js "__proto__") then o else <[k := v]> o.

Section Reads.
Variable h : Host.
(** The text of [`${error}`]. *)
Variable error_text : exn -> jstring.

(** The body of the loop of readProjectFiles, lines 971-985. *)
Definition read_one (root filePath : jstring) (files : dict) : M dict :=
  try_catch
    (let fullPath := join root filePath in
     pathExists <- existsSync (cwd h) fullPath;;
     if pathExists then
       content <- readFileSync (cwd h) fullPath;;
       ret (dict_set filePath content files)
     else
       ret (dict_set filePath (js "[FILE NOT FOUND: " ++ filePath ++ js "]") files))
    (fun error =>
       ret (dict_set filePath
              (js "[ERROR READING FILE: " ++ filePath ++ js " - "
                  ++ error_text error ++ js "]") files)).

Fixpoint read_all (root : jstring) (filePaths : list jstring) (files : dict) : M dict :=
  match filePaths with
  | [] => ret files
  | filePath :: rest =>
      files' <- read_one root filePath files;;
      read_all root rest files'
  end.

(** lines 959-993 *)
Definition readProjectFiles (filePaths : list jstring) : M dict :=
  try_catch
    (root <- workspaceRoot h;;
     read_all root filePaths ∅)
    rethrow.

End Reads.

(** [s.startsWith(pat)] *)
Fixpoint startsWith (s pat : jstring) {struct pat} : bool :=
  match pat, s with
  | [], _ => true
  | x :: pat', y :: s' => N.eqb x y && startsWith s' pat'
  | _ :: _, [] => false
  end.

(** [s.includes(pat)] *)
Fixpoint includes (s pat : jstring) : bool :=
  startsWith s pat ||
  match s with
  | [] => false
  | _ :: s' => includes s' pat
  end.

(** [s.endsWith(pat)] *)
Definition endsWith (s pat : jstring) : bool := startsWith (rev s) (rev pat).

(** lines 718-726 *)
Definition importantPatterns : list jstring :=
  [js "package.json"; js "package-lock.json"; js "yarn.lock";
   js "README.md"; js "README.txt"; js "LICENSE";
   js "tsconfig.json"; js "jsconfig.json"; js "webpack.config.js";
   js "vite.config.js"; js "next.config.js"; js "tailwind.config.js";
   js ".env"; js ".env.local"; js ".env.production";
   js "index.js"; js "index.ts"; js "main.js"; js "main.ts";
   js "app.js"; js "app.ts"; js "App.js"; js "App.tsx"].

(** lines 717-731 *)
Definition isImportantFile (filePath : jstring) : bool :=
  existsb (fun pattern => includes filePath pattern || endsWith filePath pattern)
          importantPatterns.

End AIServiceReads.
Export AIServiceReads.

(* ===================================================================== *)
(** * The caller: executeCodeAction and the executeActions handler        *)
(* ===================================================================== *)

Module Extension.

(** An action as executeCodeAction meets it at run time: its type is a
    string, which for the objects of parseCodeActions lies outside the
    union of interface CodeAction. *)
Record RtAction := mkRt {
  rt_type : jstring;
  rt_path : jstring;
  rt_content : option jstring;
  rt_sourcePath : option jstring;
  rt_destinationPath : option jstring
}.

Definition type_name (t : ActionType) : jstring :=
  match t with
  | CREATE_FILE => js "CREATE_FILE"
  | CREATE_DIRECTORY => js "CREATE_DIRECTORY"
  | DELETE_FILE => js "DELETE_FILE"
  | DELETE_DIRECTORY => js "DELETE_DIRECTORY"
  | MOVE_FILE => js "MOVE_FILE"
  | COPY_FILE => js "COPY_FILE"
  | EDIT_FILE => js "EDIT_FILE"
  end.

Definition of_CodeAction (a : CodeAction) : RtAction :=
  mkRt (type_name (type a)) (path a) (content a) (sourcePath a) (destinationPath a).

Definition of_ChatAction (c : ChatAction) : RtAction :=
  mkRt (chat_type c) (chat_path c) None None None.

(** What the user is shown: showInformationMessage(v) or
    showErrorMessage(s). *)
Inductive notification :=
| Information (message : jsval)
| ErrorMessage (message : jstring).

(** The file system together with the notifications shown so far. *)
Definition world : Type := tree * list notification.

(** [c || ''] *)
Definition or_empty (c : option jstring) : jstring :=
  match c with
  | Some s => s
  | None => []
  end.

(** Truthiness of an optional string field. *)
Definition present (c : option jstring) : bool :=
  match c with
  | Some s => truthy s
  | None => false
  end.

Section Execute.
Variable h : Host.
Variable error_text : exn -> jstring.

(** One case of the switch: await the operation and show what [report]
    makes of its result; a throw lands in the catch of lines 1859-1862. *)
Definition attempt (op : M jsval) (report : jsval -> notification) (w : world) : world :=
  match op (fst w) with
  | (Return v, t') => (t', snd w ++ [report v])
  | (Throw e, t') =>
      (t', snd w ++ [ErrorMessage (js "Failed to execute action: " ++ error_text e)])
  end.

Definition show (n : notification) (w : world) : world := (fst w, snd w ++ [n]).

(** index.js lines 1798-1863 *)
Definition executeCodeAction (action : RtAction) (w : world) : world :=
  if str_eqb (rt_type action) (js "CREATE_FILE") then
    attempt (createFile h (rt_path action) (or_empty (rt_content action))) Information w
  else if str_eqb (rt_type action) (js "CREATE_DIRECTORY") then
    attempt (createDirectory h (rt_path action)) Information w
  else if str_eqb (rt_type action) (js "DELETE_FILE") then
    attempt (deleteFile h (rt_path action)) Information w
  else if str_eqb (rt_type action) (js "DELETE_DIRECTORY") then
    attempt (deleteDirectory h (rt_path action)) Information w
  else if str_eqb (rt_type action) (js "MOVE_FILE") then
    if present (rt_sourcePath action) && present (rt_destinationPath action) then
      attempt (moveFile h (or_empty (rt_sourcePath action))
                          (or_empty (rt_destinationPath action))) Information w
    else
      show (ErrorMessage
              (js "Source and destination paths are required for move operation")) w
  else if str_eqb (rt_type action) (js "COPY_FILE") then
    if present (rt_sourcePath action) && present (rt_destinationPath action) then
      attempt (copyFile h (or_empty (rt_sourcePath action))
                          (or_empty (rt_destinationPath action))) Information w
    else
      show (ErrorMessage
              (js "Source and destination paths are required for copy operation")) w
  else if str_eqb (rt_type action) (js "EDIT_FILE") then
    attempt (editFile h (rt_path action) (or_empty (rt_content action)))
            (fun _ => Information
                        (VString (js "File " ++ rt_path action
                                     ++ js " updated successfully"))) w
  else
    show (ErrorMessage (js "Unknown action type: " ++ rt_type action)) w.




End Execute.

End Extension.
Export Extension.

(** ** Vocabulary for readProjectFiles *)

(** What readProjectFiles records for one path: the content of the file,
    a marker for a path that does not exist, or the error text when the
    path cannot be read as a file. *)
Definition entry_for (h : Host) (error_text : exn -> jstring) (root : jstring)
           (t : tree) (filePath : jstring) : jstring :=
  match stat (cwd h) t (join root filePath) with
  | Return (File d) => d
  | Return Dir =>
      js "[ERROR READING FILE: " ++ filePath ++ js " - "
         ++ error_text (SystemError EISDIR) ++ js "]"
  | Throw _ => js "[FILE NOT FOUND: " ++ filePath ++ js "]"
  end.

(* ===================================================================== *)
(** * listDirectory                                                       *)
(* ===================================================================== *)

Module Listing.

Local Open Scope fs_scope.

(** The last segment of [k'] when [k'] is an entry of the directory [k]. *)
Definition child_name (k k' : list jstring) : option jstring :=
  match below k k' with
  | Some [name] => Some name
  | _ => None
  end.

(** The names of the entries of the directory [k], in the order the file
    system hands them out (an order the callers must not rely on). *)
Definition children (t : tree) (k : list jstring) : list jstring :=
  omap (fun e => child_name k (fst e)) (map_to_list t).

Section Calls.
Variable cwd : list jstring.

(** fs.readdirSync(p) *)
Definition readdirSync (p : npath) : M (list jstring) :=
  fun t => match stat cwd t p with
           | Return Dir => (Return (children t (resolve cwd p)), t)
           | Return (File _) => (Throw (SystemError ENOTDIR), t)
           | Throw e => (Throw e, t)
           end.

(** fs.statSync(p).isDirectory() *)
Definition statSync_isDirectory (p : npath) : M bool :=
  fun t => match stat cwd t p with
           | Return Dir => (Return true, t)
           | Return (File _) => (Return false, t)
           | Throw e => (Throw e, t)
           end.

End Calls.

Section Service.
Variable h : Host.

(** The loop of listDirectory, lines 222-231; [fullPath] is a string
    there, here the rendering of the normalized path. *)
Fixpoint sort_items (fullPath : npath) (items files directories : list jstring)
  : M (list jstring * list jstring) :=
  match items with
  | [] => ret (files, directories)
  | item :: rest =>
      let itemPath := join (render fullPath) item in
      isDirectory <- statSync_isDirectory (cwd h) itemPath;;
      if isDirectory
      then sort_items fullPath rest files (directories ++ [item])
      else sort_items fullPath rest (files ++ [item]) directories
  end.

(** lines 205-238; the result is the pair { files, directories }. *)
Definition listDirectory (dirPath : jstring) : M (list jstring * list jstring) :=
  try_catch
    (root <- workspaceRoot h;;
     let fullPath := join root dirPath in
     pathExists <- existsSync (cwd h) fullPath;;
     if negb pathExists then
       throw (JsError (js "Directory " ++ dirPath ++ js " does not exist"))
     else
       items <- readdirSync (cwd h) fullPath;;
       sort_items fullPath items [] [])
    rethrow.

End Service.

End Listing.
Export Listing.

(** A name a directory entry can have: not empty, not "." or "..", and
    without a separator. *)
Definition valid_name (s : jstring) : Prop :=
  s <> [] /\ s <> DOT /\ s <> DOTDOT /\ occ SLASH s = 0.

(** Every entry of the tree is named by valid names. *)
Definition names_ok (t : tree) : Prop :=
  forall k n, t !! k = Some n -> Forall valid_name k.

(* ===================================================================== *)
(** * IntentManager                                                       *)
(* ===================================================================== *)

Module Intents.

(** A JavaScript number, as far as Math.min, Math.max and === look at it:
    NaN, an infinity, or a finite value.  The finite doubles are rationals
    and the three operations are exact on them, so the finite values are
    taken from the rationals. *)
Inductive jsnum :=
| NaN
| NegInfinity
| Finite (q : Qc)
| PosInfinity.

Definition num (z : Z) : jsnum := Finite (Q2Qc (inject_Z z)).

(** [a <= b] for numbers other than NaN. *)
Definition num_leb (a b : jsnum) : bool :=
  match a, b with
  | NegInfinity, _ => true
  | _, PosInfinity => true
  | Finite x, Finite y => if Qclt_le_dec y x then false else true
  | _, _ => false
  end.

(** Math.max(a, b) and Math.min(a, b): NaN when an argument is NaN. *)
Definition Math_max (a b : jsnum) : jsnum :=
  match a, b with
  | NaN, _ | _, NaN => NaN
  | _, _ => if num_leb a b then b else a
  end.

Definition Math_min (a b : jsnum) : jsnum :=
  match a, b with
  | NaN, _ | _, NaN => NaN
  | _, _ => if num_leb a b then a else b
  end.

(** [a === b] on numbers. *)
Definition num_eqb (a b : jsnum) : bool :=
  match a, b with
  | NegInfinity, NegInfinity | PosInfinity, PosInfinity => true
  | Finite x, Finite y => bool_decide (x = y)
  | _, _ => false
  end.

(** interface Intent, lines 1167-1174; an absent optional field is
    [None]. *)
Record Intent := mkIntent {
  intent_id : jstring;
  intent_description : jstring;
  intent_timestamp : Z;
  intent_files : option (list jstring);
  intent_progress : option jsnum;
  intent_completed : option bool
}.

(** What globalState holds under 'curvable-ai-intents': a copy of the
    current intent and of the history. *)
Definition Snapshot : Type := option Intent * list Intent.

(** The manager: its Intent objects live in a store and are referred to
    by [currentIntent] and by the elements of [intentHistory], which may
    refer to the same object. *)
Record Manager := mkManager {
  store : gmap nat Intent;
  currentIntent : option nat;
  intentHistory : list nat;
  saved : option Snapshot
}.

Definition deref (st : Manager) (l : nat) : option Intent := store st !! l.

(** getCurrentIntent() and getIntentHistory(), as values. *)
Definition getCurrentIntent (st : Manager) : option Intent :=
  match currentIntent st with
  | Some l => deref st l
  | None => None
  end.

Definition getIntentHistory (st : Manager) : list Intent :=
  omap (deref st) (intentHistory st).

Definition has_id (st : Manager) (intentId : jstring) (l : nat) : bool :=
  match deref st l with
  | Some o => str_eqb (intent_id o) intentId
  | None => false
  end.

(** this.intentHistory.find(i => i.id === intentId) *)
Definition find_intent (st : Manager) (intentId : jstring) : option nat :=
  find (has_id st intentId) (intentHistory st).

Definition with_store (st : Manager) (s : gmap nat Intent) : Manager :=
  mkManager s (currentIntent st) (intentHistory st) (saved st).

Definition set_progress (p : jsnum) (o : Intent) : Intent :=
  mkIntent (intent_id o) (intent_description o) (intent_timestamp o)
           (intent_files o) (Some p) (intent_completed o).

Definition set_completed (o : Intent) : Intent :=
  mkIntent (intent_id o) (intent_description o) (intent_timestamp o)
           (intent_files o) (intent_progress o) (Some true).

Definition set_files (fs : list jstring) (o : Intent) : Intent :=
  mkIntent (intent_id o) (intent_description o) (intent_timestamp o)
           (Some fs) (intent_progress o) (intent_completed o).

Section Persist.
(** Whether globalState.update rejects for a given value. *)
Variable update_rejects : Snapshot -> bool.

Definition snapshot (st : Manager) : Snapshot :=
  (getCurrentIntent st, getIntentHistory st).

(** lines 1273-1282: a rejection is caught and logged. *)
Definition saveIntents (st : Manager) : Manager :=
  if update_rejects (snapshot st) then st
  else mkManager (store st) (currentIntent st) (intentHistory st) (Some (snapshot st)).

(** lines 1186-1204; [newId] and [now] stand for what generateIntentId()
    and Date.now() return. *)
Definition setCurrentIntent (description newId : jstring) (now : Z) (st : Manager)
  : Manager :=
  let intent := mkIntent newId description now None (Some (num 0)) (Some false) in
  let l := fresh (dom (store st)) in
  let history := l :: intentHistory st in
  let history := if Nat.ltb 10 (length history) then take 10 history else history in
  saveIntents (mkManager (<[l := intent]> (store st)) (Some l) history (saved st)).

(** lines 1214-1223 *)
Definition updateIntentProgress (intentId : jstring) (progress : jsnum) (st : Manager)
  : Manager :=
  match find_intent st intentId with
  | Some l =>
      let p := Math_min (num 100) (Math_max (num 0) progress) in
      let update o :=
        let o1 := set_progress p o in
        if num_eqb p (num 100) then set_completed o1 else o1 in
      saveIntents (with_store st (alter update l (store st)))
  | None => st
  end.

(** [files.includes(filePath)] *)
Definition array_includes (fs : list jstring) (x : jstring) : bool :=
  existsb (str_eqb x) fs.

(** lines 1225-1236 *)
Definition addFileToIntent (intentId filePath : jstring) (st : Manager) : Manager :=
  match find_intent st intentId with
  | Some l =>
      let init_files o :=
        match intent_files o with
        | Some _ => o
        | None => set_files [] o
        end in
      let st1 := with_store st (alter init_files l (store st)) in
      let files := match deref st1 l with
                   | Some o => default [] (intent_files o)
                   | None => []
                   end in
      if array_includes files filePath then st1
      else saveIntents (with_store st1 (alter (set_files (files ++ [filePath])) l (store st1)))
  | None => st
  end.

(** lines 1238-1245 *)
Definition completeIntent (intentId : jstring) (st : Manager) : Manager :=
  match find_intent st intentId with
  | Some l =>
      saveIntents
        (with_store st (alter (fun o => set_progress (num 100) (set_completed o)) l (store st)))
  | None => st
  end.

(** lines 1247-1253 *)
Definition deleteIntent (intentId : jstring) (st : Manager) : Manager :=
  let history := List.filter (fun l => negb (has_id st intentId l)) (intentHistory st) in
  let current :=
    match currentIntent st with
    | Some l => if has_id st intentId l then None else Some l
    | None => None
    end in
  saveIntents (mkManager (store st) current history (saved st)).

(** The calls the memory view makes, index.js lines 503-520, and the
    chat view for files. *)
Inductive call :=
| SetIntent (description newId : jstring) (now : Z)
| UpdateProgress (intentId : jstring) (progress : jsnum)
| AddFile (intentId filePath : jstring)
| CompleteIntent (intentId : jstring)
| DeleteIntent (intentId : jstring).

Definition perform (c : call) (st : Manager) : Manager :=
  match c with
  | SetIntent d i n => setCurrentIntent d i n st
  | UpdateProgress i p => updateIntentProgress i p st
  | AddFile i f => addFileToIntent i f st
  | CompleteIntent i => completeIntent i st
  | DeleteIntent i => deleteIntent i st
  end.

Definition perform_all (cs : list call) (st : Manager) : Manager :=
  fold_left (fun st c => perform c st) cs st.

End Persist.

(** The manager before anything is loaded: lines 1178-1179. *)
Definition empty_manager : Manager := mkManager ∅ None [] None.

(** The progress lies between 0 and 100, or is NaN. *)
Definition clamped (p : jsnum) : Prop :=
  p = NaN \/ exists q, p = Finite q /\ (Q2Qc (inject_Z 0) <= q)%Qc /\ (q <= Q2Qc (inject_Z 100))%Qc.

(** Every reference of the manager refers to an object. *)
Definition refs_ok (st : Manager) : Prop :=
  (forall l, currentIntent st = Some l -> is_Some (store st !! l)) /\
  Forall (fun l => is_Some (store st !! l)) (intentHistory st).

End Intents.
Export Intents.

(** What the manager keeps true of every intent object: a progress that is
    present lies between 0 and 100 or is NaN, and an intent at 100 is marked
    completed. *)
Definition progress_ok (o : Intent) : Prop :=
  match intent_progress o with
  | Some p => clamped p /\ (p = num 100 -> intent_completed o = Some true)
  | None => True
  end.

Definition store_ok (st : Manager) : Prop :=
  forall l o, store st !! l = Some o -> progress_ok o.

(** The files listed on an intent; an intent without the field lists none. *)
Definition files_of (o : Intent) : list jstring := default [] (intent_files o).

(** The current intent, when there is one, is the object at the head of the
    history. *)
Definition current_heads_history (st : Manager) : Prop :=
  match currentIntent st with
  | Some l => head (intentHistory st) = Some l
  | None => True
  end.

(** loadIntents, lines 1284-1294, on the stored value: the intents a manager
    starts from; nothing stored leaves the initial null and []. *)
Definition loaded (s : option Snapshot) : Snapshot :=
  match s with
  | Some v => v
  | None => (None, [])
  end.

(** What updateIntentProgress makes of an intent object. *)
Definition with_progress (progress : jsnum) (o : Intent) : Intent :=
  let p := Math_min (num 100) (Math_max (num 0) progress) in
  if num_eqb p (num 100) then set_completed (set_progress p o) else set_progress p o.

(* ===================================================================== *)
(** * Facts about strings and the loop body                               *)
(* ===================================================================== *)

Lemma str_eqb_eq (a b : jstring) : str_eqb a b = true <-> a = b.
Proof.
  revert b. induction a as [|x a IH]; intros [|y b]; simpl; split; try easy.
  - intros [Hx Hab]%andb_true_iff. apply N.eqb_eq in Hx. apply IH in Hab. congruence.
  - intros [= -> ->]. rewrite N.eqb_refl. simpl. now apply IH.
Qed.

Lemma str_eqb_refl (a : jstring) : str_eqb a a = true.
Proof. now apply str_eqb_eq. Qed.

Lemma ActionType_eqb_eq (a b : ActionType) : ActionType_eqb a b = true <-> a = b.
Proof. destruct a, b; simpl; split; congruence. Qed.

Lemma refs_snoc (acts : list CodeAction) (a : CodeAction) :
  refs (acts ++ [a]) = refs acts ++ [(length acts, a)].
Proof.
  unfold refs. rewrite length_app. simpl.
  rewrite seq_app. simpl.
  rewrite zip_with_app by now rewrite length_seq.
  reflexivity.
Qed.

Lemma lastCreateFileAction_snoc (acts : list CodeAction) (a : CodeAction) (cfp : jstring) :
  lastCreateFileAction (acts ++ [a]) cfp =
    if ActionType_eqb (type a) CREATE_FILE && str_eqb (path a) cfp
    then Some (length acts, a)
    else lastCreateFileAction acts cfp.
Proof.
  unfold lastCreateFileAction. rewrite refs_snoc, filter_app, rev_app_distr.
  rewrite filter_cons, filter_nil. simpl.
  destruct (ActionType_eqb (type a) CREATE_FILE) eqn:Ht; simpl.
  - destruct (decide (true = true)) as [_|Hn]; [|congruence]. simpl.
    destruct (str_eqb (path a) cfp); reflexivity.
  - destruct (decide (false = true)) as [Hn|_]; [congruence|]. reflexivity.
Qed.

Lemma creates_dec_true (cfp : jstring) (a : CodeAction) :
  ActionType_eqb (type a) CREATE_FILE && str_eqb (path a) cfp = true <-> creates cfp a.
Proof.
  unfold creates. rewrite andb_true_iff, ActionType_eqb_eq, str_eqb_eq. reflexivity.
Qed.

(** The object [find] returns is the last CREATE_FILE action of the array
    with the wanted path. *)
Lemma lastCreateFileAction_Some (acts : list CodeAction) (cfp : jstring) i a :
  lastCreateFileAction acts cfp = Some (i, a) ->
  acts !! i = Some a /\ creates cfp a /\
  (forall j b, i < j -> acts !! j = Some b -> ~ creates cfp b).
Proof.
  induction acts as [|x acts IH] using rev_ind.
  - discriminate.
  - rewrite lastCreateFileAction_snoc.
    destruct (ActionType_eqb (type x) CREATE_FILE && str_eqb (path x) cfp) eqn:E.
    + intros [= <- <-]. split; [|split].
      * rewrite lookup_app_r by lia. now rewrite Nat.sub_diag.
      * now apply creates_dec_true.
      * intros j b Hj Hb. apply lookup_lt_Some in Hb.
        rewrite length_app in Hb. simpl in Hb. lia.
    + intros H. destruct (IH H) as (Hi & Hc & Hlast). split; [|split]; trivial.
      * now apply lookup_app_l_Some.
      * intros j b Hj Hb.
        destruct (decide (j < length acts)) as [Hlt|Hge].
        -- rewrite lookup_app_l in Hb by trivial. eauto.
        -- rewrite lookup_app_r in Hb by lia.
           destruct (j - length acts) as [|n] eqn:En; simpl in Hb; [|discriminate].
           injection Hb as <-. intros Hc'. apply creates_dec_true in Hc'. congruence.
Qed.


Lemma is_header_false (line : jstring) :
  is_header line = false ->
  re_match re_createFile line = None /\ re_match re_createDir line = None /\
  re_match re_createFolder line = None /\ re_match re_deleteFile line = None /\
  re_match re_deleteDir line = None /\ re_match re_moveFile line = None /\
  re_match re_copyFile line = None /\ re_match re_editFile line = None.
Proof.
  unfold is_header. cbn [existsb].
  repeat match goal with
         | |- context [re_match ?re line] =>
             lazymatch goal with
             | H : re_match re line = _ |- _ => fail
             | _ => destruct (re_match re line) eqn:?
             end
         end; cbn; intros; try discriminate; repeat split; reflexivity.
Qed.

(** Below the eight header tests the loop looks at the two content
    markers only. *)
Lemma parse_line_no_header (st : PState) (line : jstring) :
  is_header line = false ->
  parse_line st line =
    match re_match re_fileContentStart line with
    | Some m => mkPState (actions st) [] (group m 1)
    | None =>
        match re_match re_fileContentEnd line with
        | Some _ => close_block st
        | None =>
            if truthy (currentFilePath st) && truthy (trim line)
            then mkPState (actions st) (currentContent st ++ line ++ [LF]) (currentFilePath st)
            else st
        end
    end.
Proof.
  intros (H1 & H2 & H3 & H4 & H5 & H6 & H7 & H8)%is_header_false.
  unfold parse_line. now rewrite H1, H2, H3, H4, H5, H6, H7, H8.
Qed.



(* ===================================================================== *)
(** * Facts about the regular-expression matcher                          *)
(* ===================================================================== *)

Lemma occ_app (c : N) (a b : jstring) : occ c (a ++ b) = occ c a + occ c b.
Proof. induction a as [|x a IH]; simpl; [reflexivity|]. rewrite IH. lia. Qed.

Lemma strip_prefix_Some (a s s' : jstring) :
  strip_prefix a s = Some s' -> s = a ++ s'.
Proof.
  revert s. induction a as [|x a IH]; intros [|y s]; simpl; try congruence.
  destruct (N.eqb x y) eqn:E; [|discriminate].
  apply N.eqb_eq in E as ->. intros H%IH. now subst.
Qed.

Section Continuations.
(** Two properties of a continuation that the matcher passes on: what it
    matches is a prefix of its input, and it holds at least [n]
    occurrences of [c]. *)
Variable cont : jstring -> option (jstring * list jstring).
Variable c : N.
Variable n : nat.
Hypothesis cont_prefix :
  forall s w gs, cont s = Some (w, gs) -> exists r, s = w ++ r.
Hypothesis cont_occ :
  forall s w gs, cont s = Some (w, gs) -> n <= occ c w.

Lemma backtrack_prefix k s w gs :
  backtrack k cont s = Some (w, gs) -> exists r, s = w ++ r.
Proof.
  induction k as [|k IH]; simpl; [discriminate|].
  destruct (cont (drop (S k) s)) as [[w' gs']|] eqn:E; [|exact IH].
  intros [= <- <-]. destruct (cont_prefix _ _ _ E) as [r Hr].
  exists r. rewrite <- (take_drop (S k) s) at 1. rewrite Hr.
  now rewrite <- app_assoc.
Qed.

Lemma backtrack_occ k s w gs :
  backtrack k cont s = Some (w, gs) -> n <= occ c w.
Proof.
  induction k as [|k IH]; simpl; [discriminate|].
  destruct (cont (drop (S k) s)) as [[w' gs']|] eqn:E; [|exact IH].
  intros [= <- <-]. rewrite occ_app. apply cont_occ in E. lia.
Qed.

Lemma first_alt_prefix alts s w gs :
  first_alt alts cont s = Some (w, gs) -> exists r, s = w ++ r.
Proof.
  induction alts as [|a alts IH]; simpl; [discriminate|].
  destruct (strip_prefix a s) as [s'|] eqn:Ea; [|exact IH].
  destruct (cont s') as [[w' gs']|] eqn:E; [|exact IH].
  intros [= <- <-]. destruct (cont_prefix _ _ _ E) as [r Hr].
  exists r. apply strip_prefix_Some in Ea. subst. now rewrite <- app_assoc.
Qed.

Lemma first_alt_occ alts s w gs :
  first_alt alts cont s = Some (w, gs) -> n <= occ c w.
Proof.
  induction alts as [|a alts IH]; simpl; [discriminate|].
  destruct (strip_prefix a s) as [s'|] eqn:Ea; [|exact IH].
  destruct (cont s') as [[w' gs']|] eqn:E; [|exact IH].
  intros [= <- <-]. rewrite occ_app. apply cont_occ in E. lia.
Qed.
End Continuations.

Lemma match_here_prefix (p : pattern) (s w : jstring) (gs : list jstring) :
  match_here p s = Some (w, gs) -> exists r, s = w ++ r.
Proof.
  revert s w gs. induction p as [|[x|x|alts] p IH]; intros s w gs; simpl.
  - intros [= <- <-]. now exists s.
  - destruct s as [|y s]; [discriminate|].
    destruct (N.eqb y x); [|discriminate].
    destruct (match_here p s) as [[w' gs']|] eqn:E; [|discriminate].
    intros [= <- <-]. destruct (IH _ _ _ E) as [r ->]. now exists r.
  - apply backtrack_prefix. exact IH.
  - apply first_alt_prefix. exact IH.
Qed.

(** Every literal of the pattern occurs in the matched text. *)
Lemma match_here_occ (c : N) (p : pattern) (s w : jstring) (gs : list jstring) :
  match_here p s = Some (w, gs) -> lit_occ c p <= occ c w.
Proof.
  revert s w gs. induction p as [|[x|x|alts] p IH]; intros s w gs; simpl.
  - intros [= <- <-]. simpl. lia.
  - destruct s as [|y s]; [discriminate|].
    destruct (N.eqb y x) eqn:Eyx; [|discriminate].
    destruct (match_here p s) as [[w' gs']|] eqn:E; [|discriminate].
    intros [= <- <-]. apply IH in E. apply N.eqb_eq in Eyx as ->. simpl. lia.
  - apply backtrack_occ. exact IH.
  - apply first_alt_occ. exact IH.
Qed.

(** What [exec] finds: the input splits into the text before the match,
    the match [m[0]] and the text after it. *)
Lemma exec_Some (p : pattern) (s pre post : jstring) (m : list jstring) :
  exec p s = Some (pre, m, post) ->
  exists w gs, m = w :: gs /\ match_here p (w ++ post) = Some (w, gs) /\
               s = pre ++ w ++ post.
Proof.
  revert pre m post. induction s as [|x s IH]; intros pre m post; simpl.
  - destruct (match_here p []) as [[w gs]|] eqn:E; [|discriminate].
    intros [= <- <- <-]. exists w, gs.
    destruct (match_here_prefix _ _ _ _ E) as [r Hr].
    assert (w = []) as -> by (now destruct w). simpl. auto.
  - destruct (match_here p (x :: s)) as [[w gs]|] eqn:E.
    + intros [= <- <- <-]. exists w, gs.
      destruct (match_here_prefix _ _ _ _ E) as [r Hr].
      assert (drop (length w) (x :: s) = r) as ->.
      { rewrite Hr. now rewrite drop_app_length. }
      rewrite <- Hr. auto.
    + destruct (exec p s) as [[[pre' m'] post']|] eqn:E'; [|discriminate].
      intros [= <- <- <-]. destruct (IH _ _ _ eq_refl) as (w & gs & -> & Hm & ->).
      exists w, gs. auto.
Qed.

(** A line with fewer occurrences of [c] than the pattern has literal
    [c]'s does not match. *)
Lemma exec_occ (c : N) (p : pattern) (s : jstring) :
  occ c s < lit_occ c p -> exec p s = None.
Proof.
  intros Hlt.
  destruct (exec p s) as [[[pre m] post]|] eqn:E; [|reflexivity].
  apply exec_Some in E as (w & gs & -> & Hm & ->).
  apply (match_here_occ c) in Hm. rewrite !occ_app in Hlt. lia.
Qed.







(* ===================================================================== *)
(** * Content blocks                                                      *)
(* ===================================================================== *)

Lemma parse_line_plain (st : PState) (line : jstring) :
  plain line -> currentFilePath st <> [] ->
  parse_line st line =
    mkPState (actions st)
             (currentContent st ++ (if decide (nonblank line) then line ++ [LF] else []))
             (currentFilePath st).
Proof.
  intros (Hh & Ho & Hc) Hp. rewrite parse_line_no_header, Ho, Hc by trivial.
  destruct (currentFilePath st) as [|c cfp] eqn:Ecfp; [congruence|].
  cbn [truthy andb]. unfold nonblank.
  destruct (truthy (trim line)); destruct (decide _); try congruence.
  destruct st; simpl in *. rewrite app_nil_r. now subst.
Qed.

(** While a block is open, plain lines only grow the buffer. *)
Lemma run_lines_plain (body : list jstring) (st : PState) :
  Forall plain body -> currentFilePath st <> [] ->
  run_lines st body =
    mkPState (actions st) (currentContent st ++ buffered body) (currentFilePath st).
Proof.
  unfold run_lines, buffered. revert st.
  induction body as [|l body IH]; intros st Hall Hp.
  - simpl. rewrite app_nil_r. now destruct st.
  - apply Forall_cons in Hall as [Hl Hall]. cbn [fold_left].
    rewrite parse_line_plain by trivial. rewrite IH by trivial.
    cbn [actions currentContent currentFilePath]. rewrite filter_cons.
    destruct (decide (nonblank l)); simpl; now rewrite <- ?app_assoc, ?app_nil_r.
Qed.

Lemma backtrack_group_nonempty cont k s w gs :
  backtrack k cont s = Some (w, gs) -> k <= length s ->
  exists g gs', gs = g :: gs' /\ g <> [].
Proof.
  induction k as [|k IH]; simpl; [discriminate|].
  destruct (cont (drop (S k) s)) as [[w' gs']|].
  - intros [= <- <-] Hk. eexists _, _. split; [reflexivity|].
    destruct s; simpl in *; [lia|discriminate].
  - intros H Hk. apply IH; [trivial|lia].
Qed.

Lemma run_le_length (c : N) (s : jstring) : run c s <= length s.
Proof. induction s as [|x s IH]; simpl; [lia|]. destruct (N.eqb x c); simpl; lia. Qed.

Lemma match_here_lit (l : jstring) (p : pattern) (s w : jstring) (gs : list jstring) :
  match_here (map Chr l ++ p) s = Some (w, gs) ->
  exists s' w', s = l ++ s' /\ w = l ++ w' /\ match_here p s' = Some (w', gs).
Proof.
  revert s w. induction l as [|x l IH]; intros s w; simpl.
  - intros H. now exists s, w.
  - destruct s as [|y s]; [discriminate|].
    destruct (N.eqb y x) eqn:E; [|discriminate]. apply N.eqb_eq in E as ->.
    destruct (match_here (map Chr l ++ p) s) as [[w1 gs1]|] eqn:E1; [|discriminate].
    intros [= <- <-]. destruct (IH _ _ E1) as (s' & w' & -> & -> & Hm).
    now exists s', w'.
Qed.

(** The path of an open marker is never empty. *)
Lemma opens_block_nonempty (line p : jstring) : opens_block line p -> p <> [].
Proof.
  intros (_ & m & Hm & <-). unfold re_match in Hm.
  destruct (exec re_fileContentStart line) as [[[pre m'] post]|] eqn:E; [|discriminate].
  injection Hm as ->. apply exec_Some in E as (w & gs & -> & Hw & _).
  apply (match_here_lit (js "[FILE_CONTENT:")) in Hw as (s' & w' & _ & _ & Hw).
  cbn [app match_here] in Hw.
  apply backtrack_group_nonempty in Hw as (g & gs' & -> & Hg); [exact Hg|].
  apply run_le_length.
Qed.



(* ===================================================================== *)
(** * The CREATE_FOLDER alias                                             *)
(* ===================================================================== *)

Lemma split_on_none (sep : N) (s : jstring) :
  occ sep s = 0 -> split_on sep s = [s].
Proof.
  induction s as [|x s IH]; simpl; [reflexivity|].
  destruct (N.eqb x sep); [discriminate|]. simpl. intros H. now rewrite IH.
Qed.

Lemma run_app (c : N) (x r : jstring) :
  occ c x = 0 -> run c (x ++ c :: r) = length x.
Proof.
  induction x as [|a x IH]; simpl.
  - now rewrite N.eqb_refl.
  - destruct (N.eqb a c); [discriminate|]. simpl. intros H. now rewrite IH.
Qed.

(** The greedy group takes the whole run up to the first [c] when the rest
    of the pattern matches from there. *)
Lemma backtrack_run cont (c : N) (x r w : jstring) (gs : list jstring) :
  occ c x = 0 -> x <> [] -> cont (c :: r) = Some (w, gs) ->
  backtrack (run c (x ++ c :: r)) cont (x ++ c :: r) = Some (x ++ w, x :: gs).
Proof.
  intros Hocc Hx Hcont. rewrite run_app by trivial.
  destruct (length x) as [|k] eqn:Ek; [now destruct x|].
  cbn [backtrack]. rewrite <- Ek.
  now rewrite drop_app_length, take_app_length, Hcont.
Qed.

Lemma match_here_lit_app (l : jstring) (p : pattern) (s : jstring) :
  match_here (map Chr l ++ p) (l ++ s) =
    match match_here p s with
    | Some (w, gs) => Some (l ++ w, gs)
    | None => None
    end.
Proof.
  induction l as [|x l IH]; simpl.
  - now destruct (match_here p s) as [[w gs]|].
  - rewrite N.eqb_refl, IH. now destruct (match_here p s) as [[w gs]|].
Qed.

Lemma exec_cons_None (p : pattern) (x : N) (s : jstring) :
  match_here p (x :: s) = None -> exec p s = None -> exec p (x :: s) = None.
Proof. intros H1 H2. cbn [exec]. now rewrite H1, H2. Qed.

Lemma exec_here (p : pattern) (s w : jstring) (gs : list jstring) :
  match_here p s = Some (w, gs) -> exec p s = Some ([], w :: gs, drop (length w) s).
Proof. intros H. destruct s; cbn [exec]; now rewrite H. Qed.

(** C9.  A line that consists of the marker [CREATE_FOLDER:x:y] (with a
    path free of colons and a description free of closing brackets, both
    non-empty and free of opening brackets and newlines) parses to exactly
    one action, of type CREATE_DIRECTORY, with path x and description y. *)
Theorem create_folder_alias (x y : jstring) :
  x <> [] -> y <> [] ->
  occ COLON x = 0 -> occ LBRACKET x = 0 -> occ LF x = 0 ->
  occ RBRACKET y = 0 -> occ LBRACKET y = 0 -> occ LF y = 0 ->
  suggestCodeActions (js "[CREATE_FOLDER:" ++ x ++ js ":" ++ y ++ js "]") =
    [mkAction CREATE_DIRECTORY x None y None None].
Proof.
  intros Hx Hy Hxc Hxb Hxl Hyr Hyb Hyl.
  set (tail := x ++ js ":" ++ y ++ js "]").
  assert (Htail : occ LBRACKET tail = 0).
  { unfold tail. rewrite !occ_app, Hxb, Hyb. reflexivity. }
  assert (Hno : forall p, 1 <= lit_occ LBRACKET p -> exec p tail = None).
  { intros p Hp. apply (exec_occ LBRACKET). rewrite Htail. lia. }
  unfold suggestCodeActions, split_lines.
  rewrite split_on_none.
  2:{ rewrite occ_app. fold tail. unfold tail. rewrite !occ_app, Hxl, Hyl. reflexivity. }
  fold tail. cbn [run_lines fold_left]. unfold parse_line.
  assert (Hpre : js "[CREATE_FOLDER:" ++ tail =
                 (91 :: 67 :: 82 :: 69 :: 65 :: 84 :: 69 :: 95 :: 70 :: 79 :: 76
                     :: 68 :: 69 :: 82 :: 58 :: tail)%N) by reflexivity.
  assert (H1 : re_match re_createFile (js "[CREATE_FOLDER:" ++ tail) = None).
  { unfold re_match. rewrite Hpre.
    replace (exec re_createFile _) with (@None (jstring * list jstring * jstring));
      [reflexivity|symmetry].
    repeat (apply exec_cons_None; [reflexivity|]).
    apply Hno. vm_compute. lia. }
  assert (H2 : re_match re_createDir (js "[CREATE_FOLDER:" ++ tail) = None).
  { unfold re_match. rewrite Hpre.
    replace (exec re_createDir _) with (@None (jstring * list jstring * jstring));
      [reflexivity|symmetry].
    repeat (apply exec_cons_None; [reflexivity|]).
    apply Hno. vm_compute. lia. }
  assert (H3 : re_match re_createFolder (js "[CREATE_FOLDER:" ++ tail) =
               Some [js "[CREATE_FOLDER:" ++ tail; x; y]).
  { unfold re_match.
    change re_createFolder with
      (map Chr (js "[CREATE_FOLDER:") ++
         [NotPlus COLON; Chr COLON; NotPlus RBRACKET; Chr RBRACKET]).
    erewrite exec_here.
    2:{ rewrite match_here_lit_app. unfold tail. cbn [match_here].
        change (js ":" ++ y ++ js "]") with (COLON :: y ++ RBRACKET :: []).
        erewrite backtrack_run; [reflexivity|trivial|trivial|].
        cbn [match_here]. rewrite N.eqb_refl.
        erewrite backtrack_run; [reflexivity|trivial|trivial|].
        cbn [match_here]. rewrite N.eqb_refl. reflexivity. }
    reflexivity. }
  rewrite H1, H2, H3. reflexivity.
Qed.

(* ===================================================================== *)
(** * Facts about the executor                                            *)
(* ===================================================================== *)

Lemma try_catch_rethrow {A} (m : M A) (t : tree) : try_catch m rethrow t = m t.
Proof. unfold try_catch, rethrow, throw. now destruct (m t) as [[v|e] t']. Qed.

Lemma bind_Return {A B} (m : M A) (k : A -> M B) (t t' : tree) (v : B) :
  bind m k t = (Return v, t') ->
  exists a t1, m t = (Return a, t1) /\ k a t1 = (Return v, t').
Proof.
  unfold bind. destruct (m t) as [[a|e] t1]; [|discriminate]. intros H. now exists a, t1.
Qed.

Lemma existsSync_state (cwd : list jstring) (p : npath) (t t' : tree) (b : bool) :
  existsSync cwd p t = (Return b, t') -> t' = t.
Proof. unfold existsSync. destruct (stat cwd t p); congruence. Qed.

Lemma existsSync_true (cwd : list jstring) (p : npath) (t : tree) :
  existsSync cwd p t = (Return true, t) <-> exists n, stat cwd t p = Return n.
Proof.
  unfold existsSync. destruct (stat cwd t p) as [n|e]; split; try congruence; eauto.
  intros [n [=]].
Qed.

Ltac open_service :=
  rewrite ?try_catch_rethrow;
  unfold workspaceRoot, bind, ret, throw.

(** C10.  When the path an operation requires does not exist, each of
    deleteFile, deleteDirectory, moveFile, copyFile and editFile throws
    its "does not exist" error and the file system is the one it started
    from: the existence test comes before every write. *)
Theorem missing_path_leaves_tree_unchanged
  (h : Host) (root : jstring) (others : list jstring) (t : tree)
  (p q content : jstring) :
  workspaceFolders h = root :: others ->
  existsSync (cwd h) (join root p) t = (Return false, t) ->
  deleteFile h p t =
    (Throw (JsError (js "File " ++ p ++ js " does not exist")), t) /\
  deleteDirectory h p t =
    (Throw (JsError (js "Directory " ++ p ++ js " does not exist")), t) /\
  moveFile h p q t =
    (Throw (JsError (js "Source file " ++ p ++ js " does not exist")), t) /\
  copyFile h p q t =
    (Throw (JsError (js "Source file " ++ p ++ js " does not exist")), t) /\
  editFile h p content t =
    (Throw (JsError (js "File " ++ p ++ js " does not exist")), t).
Proof.
  intros Hws Hex.
  unfold deleteFile, deleteDirectory, moveFile, copyFile, editFile.
  open_service. rewrite Hws, Hex. cbn [negb]. auto.
Qed.

Lemma stat_File (cwd : list jstring) (t : tree) (p : npath) (d : jstring) :
  stat cwd t p = Return (File d) ->
  trailing p = false /\ resolve cwd p <> [] /\ t !! resolve cwd p = Some (File d).
Proof.
  unfold stat, node_at. destruct (resolve cwd p) as [|x k] eqn:Ek.
  - discriminate.
  - destruct (t !! (x :: k)) as [[d'|]|] eqn:E; try discriminate.
    destruct (trailing p); [discriminate|]. intros [= ->]. auto.
Qed.

Lemma stat_insert_File (cwd : list jstring) (t : tree) (p : npath) (d : jstring) :
  trailing p = false -> resolve cwd p <> [] ->
  stat cwd (<[resolve cwd p := File d]> t) p = Return (File d).
Proof.
  intros Htr Hk. unfold stat, node_at.
  destruct (resolve cwd p) as [|x k] eqn:Ek; [congruence|].
  now rewrite lookup_insert_eq, Htr.
Qed.


Ltac outcome_cases :=
  repeat match goal with
         | |- context [match ?x with _ => _ end] => destruct x eqn:?
         end.

(** C4 (as the code has it).  Whenever one of createFile, createDirectory,
    deleteFile, deleteDirectory, moveFile and copyFile succeeds, the value
    it resolves to is its success message, a string; whenever editFile
    succeeds, the value it resolves to is the boolean true. *)
Theorem success_values
  (h : Host) (t t' : tree) (v : jsval) (p q content : jstring) :
  (createFile h p content t = (Return v, t') ->
     v = VString (js "File " ++ p ++ js " created successfully")) /\
  (createDirectory h p t = (Return v, t') ->
     v = VString (js "Directory " ++ p ++ js " already exists") \/
     v = VString (js "Directory " ++ p ++ js " created successfully")) /\
  (deleteFile h p t = (Return v, t') ->
     v = VString (js "File " ++ p ++ js " deleted successfully")) /\
  (deleteDirectory h p t = (Return v, t') ->
     v = VString (js "Directory " ++ p ++ js " deleted successfully")) /\
  (moveFile h p q t = (Return v, t') ->
     v = VString (js "File moved from " ++ p ++ js " to " ++ q)) /\
  (copyFile h p q t = (Return v, t') ->
     v = VString (js "File copied from " ++ p ++ js " to " ++ q)) /\
  (editFile h p content t = (Return v, t') -> v = VBoolean true).
Proof.
  unfold createFile, createDirectory, deleteFile, deleteDirectory, moveFile,
    copyFile, editFile.
  rewrite !try_catch_rethrow.
  unfold workspaceRoot, bind, ret, throw, try_catch.
  repeat split; outcome_cases; intros [= <- <-]; auto.
Qed.

(* ===================================================================== *)
(** * Creating directories and files                                      *)
(* ===================================================================== *)


Lemma mkdir_p_keeps (rest : list jstring) (t : tree) (pre : list jstring)
      (o : outcome unit) (t' : tree) (k : list jstring) (n : node) :
  mkdir_p t pre rest = (o, t') -> t !! k = Some n -> t' !! k = Some n.
Proof.
  revert t pre. induction rest as [|x rest IH]; intros t pre; simpl.
  - now intros [= _ ->].
  - intros Hm Hk. destruct (t !! (pre ++ [x])) as [[d|]|] eqn:E.
    + now injection Hm as _ ->.
    + eapply IH; eauto.
    + eapply IH; eauto. rewrite lookup_insert_ne; [trivial|congruence].
Qed.



Lemma join_absolute (root p : jstring) :
  starts_with_slash root = true -> absolute (join root p) = true.
Proof.
  intros Hr. destruct root as [|c root]; [discriminate|].
  assert (Hn : forall s, starts_with_slash (c :: s) = true ->
                 absolute (normalize (c :: s)) = true).
  { intros s Hs. unfold normalize. rewrite Hs.
    now destruct (normalize_segs _ _ _). }
  unfold join. destruct p as [|b p]; now apply Hn.
Qed.





(* ===================================================================== *)
(** * Where a joined path ends up                                         *)
(* ===================================================================== *)

Lemma below_app (k s : list jstring) : below k (k ++ s) = Some s.
Proof. induction k as [|x k IH]; simpl; [reflexivity|]. now rewrite str_eqb_refl. Qed.

Lemma under_app (k s : list jstring) : under k (k ++ s) = true.
Proof. unfold under. now rewrite below_app. Qed.

Lemma split_on_app (sep : N) (a b : jstring) :
  split_on sep (a ++ sep :: b) = split_on sep a ++ split_on sep b.
Proof.
  induction a as [|x a IH]; simpl.
  - now rewrite N.eqb_refl.
  - destruct (N.eqb x sep); [now rewrite IH|].
    rewrite IH. destruct (split_on sep a) as [|l ls] eqn:E; [|reflexivity].
    destruct a; simpl in E; [discriminate|].
    destruct (N.eqb _ sep); [discriminate|]. now destruct (split_on sep a).
Qed.

Lemma normalize_segs_app (f : bool) (a b acc : list jstring) :
  normalize_segs f acc (a ++ b) = normalize_segs f (rev (normalize_segs f acc a)) b.
Proof.
  revert acc. induction a as [|x a IH]; intros acc; simpl.
  - now rewrite rev_involutive.
  - destruct (str_eqb x [] || str_eqb x DOT); [apply IH|].
    destruct (str_eqb x DOTDOT); [|apply IH].
    destruct acc as [|y acc]; [apply IH|].
    destruct (str_eqb y DOTDOT); apply IH.
Qed.

(** Without a ".." segment, normalization only appends to what is there. *)
Lemma normalize_segs_extends (f : bool) (l acc : list jstring) :
  Forall (fun sg => sg <> DOTDOT) l ->
  exists suffix, normalize_segs f acc l = rev acc ++ suffix.
Proof.
  revert acc. induction l as [|x l IH]; intros acc Hl; simpl.
  - exists []. now rewrite app_nil_r.
  - apply Forall_cons in Hl as [Hx Hl].
    destruct (str_eqb x [] || str_eqb x DOT); [now apply IH|].
    destruct (str_eqb x DOTDOT) eqn:E; [now apply str_eqb_eq in E|].
    destruct (IH (x :: acc) Hl) as [suffix ->]. exists (x :: suffix).
    simpl. now rewrite <- app_assoc.
Qed.

Lemma segs_normalize (s : jstring) :
  s <> [] ->
  segs (normalize s) = normalize_segs (negb (starts_with_slash s)) [] (split_on SLASH s).
Proof.
  intros Hs. unfold normalize. destruct s as [|c s]; [congruence|].
  destruct (normalize_segs _ _ _) eqn:E; [|reflexivity].
  now destruct (starts_with_slash (c :: s)).
Qed.

(** C3 (as the code has it).  Every operation acts on
    path.join(root, relative) and makes no containment test: deleteFile
    removes whatever file the joined path names.  The joined path lies
    under the root whenever the relative path has no ".." segment; with
    ".." segments it need not. *)
Theorem join_contained_without_dotdot
  (h : Host) (root : jstring) (others : list jstring) (t : tree)
  (p d : jstring) :
  workspaceFolders h = root :: others ->
  (stat (cwd h) t (join root p) = Return (File d) ->
     deleteFile h p t =
       (Return (VString (js "File " ++ p ++ js " deleted successfully")),
        delete (resolve (cwd h) (join root p)) t)) /\
  (starts_with_slash root = true ->
   Forall (fun sg => sg <> DOTDOT) (split_on SLASH p) ->
     resolve (cwd h) (join root p) = segs (join root p) /\
     under (segs (normalize root)) (segs (join root p)) = true).
Proof.
  intros Hws. split.
  - intros Hst. unfold deleteFile. open_service. rewrite Hws.
    unfold existsSync, unlinkSync. rewrite Hst. cbn [negb]. cbv beta iota.
    now rewrite Hst.
  - intros Habs Hp. split.
    { unfold resolve. now rewrite join_absolute. }
    destruct root as [|c root]; [discriminate|].
    unfold join. destruct p as [|b p].
    + rewrite <- (app_nil_r (segs (normalize (c :: root)))) at 2. apply under_app.
    + rewrite !segs_normalize by discriminate.
      change ((c :: root) ++ [SLASH] ++ b :: p) with ((c :: root) ++ SLASH :: b :: p).
      rewrite split_on_app, normalize_segs_app.
      assert (starts_with_slash ((c :: root) ++ SLASH :: b :: p)
              = starts_with_slash (c :: root)) as -> by reflexivity.
      destruct (normalize_segs_extends (negb (starts_with_slash (c :: root)))
                  (split_on SLASH (b :: p))
                  (rev (normalize_segs (negb (starts_with_slash (c :: root))) []
                          (split_on SLASH (c :: root)))) Hp) as [suffix ->].
      rewrite rev_involutive. apply under_app.
Qed.

(* ===================================================================== *)
(** * The second parser: parseCodeActions                                 *)
(* ===================================================================== *)

Lemma occ_le_length (c : N) (s : jstring) : occ c s <= length s.
Proof. induction s as [|x s IH]; simpl; [lia|]. destruct (N.eqb x c); lia. Qed.

Lemma exec_actionRegex_shrinks (s pre post : jstring) (m : list jstring) :
  exec actionRegex s = Some (pre, m, post) -> length post < length s.
Proof.
  intros (w & gs & -> & Hm & ->)%exec_Some.
  apply (match_here_occ LBRACKET) in Hm.
  pose proof (occ_le_length LBRACKET w) as Hw.
  change (lit_occ LBRACKET actionRegex) with 1 in Hm.
  rewrite !length_app. lia.
Qed.

(** The loop of parseCodeActions ends: more fuel than the length of the
    text never changes its result. *)
Lemma exec_loop_fuel (n fuel : nat) (s : jstring) :
  length s < n -> length s < fuel -> exec_loop fuel s = exec_loop n s.
Proof.
  revert fuel s. induction n as [|n IH]; intros fuel s Hn Hf; [lia|].
  destruct fuel as [|fuel]; [lia|]. simpl.
  destruct (exec actionRegex s) as [[[pre m] post]|] eqn:E; [|reflexivity].
  apply exec_actionRegex_shrinks in E. f_equal. apply IH; lia.
Qed.

(** The chat-side parser does not normalize the alias: it lower-cases the
    label it found. *)
Lemma parseCodeActions_create_folder :
  parseCodeActions (js "[CREATE_FOLDER:x:y]") =
    [mkChatAction (js "create_folder") (js "x") (js "y")].
Proof. vm_compute. reflexivity. Qed.

(* ===================================================================== *)
(** * The examples of the specification                                   *)
(* ===================================================================== *)

Example scenario_file_with_content :
  suggestCodeActions
    (join_with LF [js "Sure! [CREATE_FILE:src/x.js:add helper]";
                   js "[FILE_CONTENT:src/x.js]"; js "console.log(1);";
                   js "[/FILE_CONTENT]"; js "Done."]) =
    [mkAction CREATE_FILE (js "src/x.js") (Some (js "console.log(1);"))
              (js "add helper") None None].
Proof. vm_compute. reflexivity. Qed.

Example lone_close_marker_ignored : suggestCodeActions (js "[/FILE_CONTENT]") = [].
Proof. vm_compute. reflexivity. Qed.

Example unbound_block_dropped :
  suggestCodeActions
    (join_with LF [js "[FILE_CONTENT:f]"; js "text"; js "[/FILE_CONTENT]"]) = [].
Proof. vm_compute. reflexivity. Qed.

Example move_marker_with_two_fields_dropped :
  suggestCodeActions (js "[MOVE_FILE:a:b]") = [].
Proof. vm_compute. reflexivity. Qed.

Example move_marker_parsed :
  suggestCodeActions (js "[MOVE_FILE:a:b:why]") =
    [mkAction MOVE_FILE (js "a") None (js "why") (Some (js "a")) (Some (js "b"))].
Proof. vm_compute. reflexivity. Qed.

Example deleteFile_missing :
  deleteFile host_ws (js "missing.txt") ∅ =
    (Throw (JsError (js "File missing.txt does not exist")), ∅).
Proof. vm_compute. reflexivity. Qed.

Example file_before_directory :
  let t1 := snd (createFile host_ws (js "d/f.txt") (js "x") ∅) in
  createDirectory host_ws (js "d") t1 =
    (Return (VString (js "Directory d already exists")), t1) /\
  getFileContent host_ws (js "d/f.txt") t1 = (Return (js "x"), t1).
Proof. split; vm_compute; reflexivity. Qed.

Example join_renders :
  render (join (js "/ws/") (js "a//b/./c/../d/")) = js "/ws/a/b/d/" /\
  render (join (js "/ws") (js "../../x")) = js "/x" /\
  render (dirname (join (js "/ws") (js "a/b.txt"))) = js "/ws/a".
Proof. repeat split; vm_compute; reflexivity. Qed.

(* ===================================================================== *)
(** * Instances                                                           *)
(* ===================================================================== *)



(** C3, counterexample.  With /ws as the workspace root, createFile on
    "../b.txt" is not rejected: it succeeds and writes /b.txt, outside the
    root; and deleteFile on "../secret.txt" deletes /secret.txt. *)
Lemma path_traversal_not_rejected :
  inside (js "/ws") (resolve (cwd host_ws) (join (js "/ws") (js "../b.txt"))) = false /\
  createFile host_ws (js "../b.txt") (js "hello") ∅ =
    (Return (VString (js "File ../b.txt created successfully")),
     {[ [js "b.txt"] := File (js "hello") ]}) /\
  inside (js "/ws") (resolve (cwd host_ws) (join (js "/ws") (js "../secret.txt"))) = false /\
  deleteFile host_ws (js "../secret.txt") tree_secret =
    (Return (VString (js "File ../secret.txt deleted successfully")), ∅).
Proof. repeat split; vm_compute; reflexivity. Qed.

Lemma join_contained_without_dotdot_witness :
  deleteFile host_ws (js "f.txt") tree_f =
    (Return (VString (js "File " ++ js "f.txt" ++ js " deleted successfully")),
     delete (resolve (cwd host_ws) (join (js "/ws") (js "f.txt"))) tree_f) /\
  inside (js "/ws") (segs (join (js "/ws") (js "a/./b.txt"))) = true.
Proof.
  pose proof (join_contained_without_dotdot host_ws (js "/ws") [] tree_f
                (js "f.txt") (js "old") eq_refl) as [H1 _].
  pose proof (join_contained_without_dotdot host_ws (js "/ws") [] tree_f
                (js "a/./b.txt") (js "old") eq_refl) as [_ H2].
  split.
  - apply H1. vm_compute. reflexivity.
  - apply H2; [reflexivity|]. vm_compute. repeat constructor; discriminate.
Defined.

(** C4, counterexample.  editFile on the existing file /ws/f.txt succeeds
    and resolves to the boolean true, which is no string. *)
Lemma editFile_resolves_to_boolean :
  editFile host_ws (js "f.txt") (js "new") tree_f =
    (Return (VBoolean true), {[ [js "ws"; js "f.txt"] := File (js "new") ]}) /\
  forall s, VBoolean true <> VString s.
Proof. split; [vm_compute; reflexivity|discriminate]. Qed.

Lemma success_values_witness :
  createFile host_ws (js "a/b.txt") (js "hello") ∅ =
    (Return (VString (js "File a/b.txt created successfully")),
     snd (createFile host_ws (js "a/b.txt") (js "hello") ∅)).
Proof.
  destruct (createFile host_ws (js "a/b.txt") (js "hello") ∅) as [[v|e] t'] eqn:E.
  - rewrite (proj1 (success_values host_ws ∅ t' v (js "a/b.txt") [] (js "hello")) E).
    reflexivity.
  - exfalso. vm_compute in E. discriminate E.
Defined.






Lemma create_folder_alias_witness :
  suggestCodeActions (js "[CREATE_FOLDER:x:y]") =
    [mkAction CREATE_DIRECTORY (js "x") None (js "y") None None].
Proof.
  apply (create_folder_alias (js "x") (js "y")); (discriminate || reflexivity).
Defined.

Lemma missing_path_leaves_tree_unchanged_witness :
  deleteFile host_ws (js "missing.txt") tree_f =
    (Throw (JsError (js "File " ++ js "missing.txt" ++ js " does not exist")), tree_f).
Proof.
  apply (missing_path_leaves_tree_unchanged host_ws (js "/ws") [] tree_f
           (js "missing.txt") [] [] eq_refl).
  vm_compute. reflexivity.
Defined.

(* ===================================================================== *)
(** * Further properties of the line parser                               *)
(* ===================================================================== *)

Lemma trimStart_head (s : jstring) :
  match trimStart s with [] => True | c :: _ => is_ws c = false end.
Proof.
  induction s as [|c s IH]; simpl; [exact I|].
  destruct (is_ws c) eqn:E; [exact IH|exact E].
Qed.

Lemma trimStart_fixed (s : jstring) :
  match s with [] => True | c :: _ => is_ws c = false end -> trimStart s = s.
Proof. destruct s as [|c s]; simpl; [reflexivity|]. now intros ->. Qed.

Lemma trimStart_idem (s : jstring) : trimStart (trimStart s) = trimStart s.
Proof. apply trimStart_fixed, trimStart_head. Qed.

Lemma trimStart_snoc (l : jstring) (c : N) :
  is_ws c = false -> exists l', trimStart (l ++ [c]) = l' ++ [c].
Proof.
  intros Hc. induction l as [|x l IH]; simpl.
  - rewrite Hc. now exists [].
  - destruct (is_ws x); [exact IH|]. now exists (x :: l).
Qed.

Lemma trimEnd_head (s : jstring) :
  match s with [] => True | c :: _ => is_ws c = false end ->
  match trimEnd s with [] => True | c :: _ => is_ws c = false end.
Proof.
  destruct s as [|c s]; [intros _; exact I|]. intros Hc.
  unfold trimEnd. simpl rev.
  destruct (trimStart_snoc (rev s) c Hc) as [l' ->].
  rewrite rev_app_distr. simpl. exact Hc.
Qed.

Lemma trimEnd_idem (s : jstring) : trimEnd (trimEnd s) = trimEnd s.
Proof. unfold trimEnd. now rewrite rev_involutive, trimStart_idem. Qed.

(** [trim] is idempotent. *)
Lemma trim_idem (s : jstring) : trim (trim s) = trim s.
Proof.
  unfold trim. rewrite (trimStart_fixed (trimEnd (trimStart s))).
  - apply trimEnd_idem.
  - apply trimEnd_head, trimStart_head.
Qed.

Lemma run_take (c : N) (s : jstring) (k : nat) :
  k <= run c s -> occ c (take k s) = 0.
Proof.
  revert k. induction s as [|x s IH]; intros k; simpl.
  - now destruct k.
  - destruct (N.eqb x c) eqn:E.
    + intros Hk. assert (k = 0) as -> by lia. reflexivity.
    + destruct k as [|k]; [reflexivity|]. simpl. rewrite E. intros Hk.
      rewrite IH by lia. reflexivity.
Qed.

Lemma backtrack_group cont (c : N) (k : nat) (s w : jstring) (gs : list jstring) :
  backtrack k cont s = Some (w, gs) -> k <= run c s ->
  exists g gs' s' w', gs = g :: gs' /\ g <> [] /\ occ c g = 0 /\
                      cont s' = Some (w', gs').
Proof.
  induction k as [|k IH]; simpl; [discriminate|].
  destruct (cont (drop (S k) s)) as [[w' gs']|] eqn:E.
  - intros [= <- <-] Hk. exists (take (S k) s), gs', (drop (S k) s), w'.
    repeat split; trivial.
    + pose proof (run_le_length c s). destruct s; simpl in *; [lia|discriminate].
    + now apply run_take.
  - intros H Hk. apply IH; [trivial|lia].
Qed.

(** Each capturing group [([^c]+)] of a pattern captures a non-empty text
    free of [c]. *)
Lemma match_here_groups (p : pattern) (s w : jstring) (gs : list jstring) :
  no_alt p = true -> match_here p s = Some (w, gs) ->
  Forall2 (fun c g => g <> [] /\ occ c g = 0) (stops p) gs.
Proof.
  revert s w gs. induction p as [|[x|x|alts] p IH]; intros s w gs Hna; simpl.
  - intros [= <- <-]. constructor.
  - destruct s as [|y s]; [discriminate|].
    destruct (N.eqb y x); [|discriminate].
    destruct (match_here p s) as [[w' gs']|] eqn:E; [|discriminate].
    intros [= <- <-]. eapply IH; eauto.
  - intros Hb. apply (backtrack_group _ x) in Hb as (g & gs' & s' & w' & -> & Hg & Ho & Hc);
      [|lia].
    constructor; [auto|]. eapply IH; eauto.
  - discriminate.
Qed.

Lemma re_match_groups (p : pattern) (s : jstring) (m : list jstring) :
  no_alt p = true -> re_match p s = Some m ->
  exists w gs, m = w :: gs /\
    Forall2 (fun c g => g <> [] /\ occ c g = 0) (stops p) gs.
Proof.
  intros Hna. unfold re_match.
  destruct (exec p s) as [[[pre m'] post]|] eqn:E; [|discriminate].
  intros [= <-]. apply exec_Some in E as (w & gs & -> & Hm & _).
  exists w, gs. split; [reflexivity|]. eapply match_here_groups; eauto.
Qed.

Lemma re_two_groups (label : string) (s : jstring) (m : list jstring) :
  re_match (re_two label) s = Some m ->
  group m 1 <> [] /\ occ COLON (group m 1) = 0 /\
  group m 2 <> [] /\ occ RBRACKET (group m 2) = 0.
Proof.
  intros H. apply re_match_groups in H as (w & gs & -> & Hgs).
  - assert (Hst : stops (re_two label) = [COLON; RBRACKET]).
    { unfold re_two, lit. generalize (js label). intros l.
      induction l as [|x l IHl]; [reflexivity|exact IHl]. }
    rewrite Hst in Hgs.
    apply Forall2_cons_inv_l in Hgs as (g1 & gs1 & [H1 H1'] & Hgs & ->).
    apply Forall2_cons_inv_l in Hgs as (g2 & gs2 & [H2 H2'] & Hgs & ->).
    simpl. auto.
  - unfold re_two, lit. generalize (js label). intros l.
    induction l as [|x l IHl]; [reflexivity|exact IHl].
Qed.

Lemma re_three_groups (label : string) (s : jstring) (m : list jstring) :
  re_match (re_three label) s = Some m ->
  group m 1 <> [] /\ occ COLON (group m 1) = 0 /\
  group m 2 <> [] /\ occ COLON (group m 2) = 0 /\
  group m 3 <> [] /\ occ RBRACKET (group m 3) = 0.
Proof.
  intros H. apply re_match_groups in H as (w & gs & -> & Hgs).
  - assert (Hst : stops (re_three label) = [COLON; COLON; RBRACKET]).
    { unfold re_three, lit. generalize (js label). intros l.
      induction l as [|x l IHl]; [reflexivity|exact IHl]. }
    rewrite Hst in Hgs.
    apply Forall2_cons_inv_l in Hgs as (g1 & gs1 & [H1 H1'] & Hgs & ->).
    apply Forall2_cons_inv_l in Hgs as (g2 & gs2 & [H2 H2'] & Hgs & ->).
    apply Forall2_cons_inv_l in Hgs as (g3 & gs3 & [H3 H3'] & Hgs & ->).
    simpl. tauto.
  - unfold re_three, lit. generalize (js label). intros l.
    induction l as [|x l IHl]; [reflexivity|exact IHl].
Qed.

Lemma push_simple_fields (t : ActionType) (label : string) (line : jstring) (m : list jstring) :
  re_match (re_two label) line = Some m ->
  match t with MOVE_FILE | COPY_FILE => False | _ => True end ->
  fields_ok (mkAction t (group m 1) None (group m 2) None None).
Proof.
  intros (H1 & H2 & H3 & H4)%re_two_groups Ht. unfold fields_ok. cbn.
  repeat split; trivial. now destruct t.
Qed.

Lemma push_transfer_fields (t : ActionType) (label : string) (line : jstring) (m : list jstring) :
  re_match (re_three label) line = Some m ->
  match t with MOVE_FILE | COPY_FILE => True | _ => False end ->
  fields_ok (mkAction t (group m 1) None (group m 3) (Some (group m 1)) (Some (group m 2))).
Proof.
  intros (H1 & H2 & H3 & H4 & H5 & H6)%re_three_groups Ht. unfold fields_ok. cbn.
  repeat split; trivial. destruct t; try contradiction; eauto.
Qed.

(** What one line does to the action list: it appends one well-formed
    action without content (a header line), or binds content to one
    CREATE_FILE action (a close line), or nothing. *)
Lemma parse_line_cases (st : PState) (line : jstring) :
  (exists a, fields_ok a /\ content a = None /\
             actions (parse_line st line) = actions st ++ [a] /\
             actions (parse_line init line) = [a]) \/
  (is_header line = false /\ actions (parse_line init line) = [] /\
   (actions (parse_line st line) = actions st \/
    (closes_block line /\
     exists i a, actions st !! i = Some a /\ creates (currentFilePath st) a /\
       actions (parse_line st line) =
         <[i := set_content a (trim (currentContent st))]> (actions st)))).
Proof.
  destruct (is_header line) eqn:Hh.
  - left. unfold is_header in Hh. cbn [existsb] in Hh. unfold parse_line.
    unfold re_createFile, re_createDir, re_createFolder, re_deleteFile,
      re_deleteDir, re_moveFile, re_copyFile, re_editFile in *.
    repeat match goal with
           | |- context [match re_match (re_two ?l) line with _ => _ end] =>
               destruct (re_match (re_two l) line) eqn:?;
                 [eexists; (split; [|split; [|split; reflexivity]]);
                  [eapply push_simple_fields; [eassumption|exact I]|reflexivity]|]
           | |- context [match re_match (re_three ?l) line with _ => _ end] =>
               destruct (re_match (re_three l) line) eqn:?;
                 [eexists; (split; [|split; [|split; reflexivity]]);
                  [eapply push_transfer_fields; [eassumption|exact I]|reflexivity]|]
           end.
    repeat match goal with
           | H : re_match _ line = None |- _ => rewrite H in Hh; clear H
           end.
    discriminate Hh.
  - right. split; [reflexivity|].
    rewrite !parse_line_no_header by trivial.
    destruct (re_match re_fileContentStart line) eqn:Eo; [split; [reflexivity|now left]|].
    destruct (re_match re_fileContentEnd line) eqn:Ec.
    + split; [reflexivity|]. unfold close_block. cbn [actions].
      destruct (lastCreateFileAction (actions st) (currentFilePath st)) as [[i a]|] eqn:E;
        [|now left].
      right. split.
      * repeat split; trivial. congruence.
      * apply lastCreateFileAction_Some in E as (Hi & Hc & _). eauto.
    + split; [reflexivity|]. left.
      now destruct (truthy (currentFilePath st) && truthy (trim line)).
Qed.

Lemma erase_content_insert (acts : list CodeAction) (i : nat) (a : CodeAction) (c : jstring) :
  acts !! i = Some a ->
  map erase_content (<[i := set_content a c]> acts) = map erase_content acts.
Proof.
  revert i. induction acts as [|b acts IH]; intros [|i]; simpl; try discriminate.
  - intros [= ->]. f_equal.
  - intros Hi. f_equal. now apply IH.
Qed.

Lemma erase_content_None (a : CodeAction) : content a = None -> erase_content a = a.
Proof. destruct a. simpl. now intros ->. Qed.

Lemma parse_line_erased (st : PState) (line : jstring) :
  map erase_content (actions (parse_line st line)) =
    map erase_content (actions st) ++ actions (parse_line init line).
Proof.
  destruct (parse_line_cases st line)
    as [(a & _ & Hc & -> & ->)|(_ & -> & [->|(_ & i & a & Hi & _ & ->)])].
  - rewrite map_app. simpl. now rewrite erase_content_None.
  - now rewrite app_nil_r.
  - rewrite app_nil_r. now apply erase_content_insert.
Qed.

(** X1.  Content aside, the actions are what each line yields on its own,
    in the order of the lines: no content block ever adds, drops, reorders
    or alters an action's type, path, description, source or destination. *)
Theorem actions_follow_line_order (response : jstring) :
  map erase_content (suggestCodeActions response) =
    concat (map (fun line => actions (parse_line init line)) (split_lines response)).
Proof.
  unfold suggestCodeActions, run_lines.
  assert (H : forall ls st,
    map erase_content (actions (fold_left parse_line ls st)) =
      map erase_content (actions st)
        ++ concat (map (fun line => actions (parse_line init line)) ls)).
  { induction ls as [|l ls IH]; intros st; simpl.
    - now rewrite app_nil_r.
    - rewrite IH, parse_line_erased. now rewrite <- app_assoc. }
  apply (H _ init).
Qed.

Lemma run_lines_Forall (P : CodeAction -> Prop) :
  (forall a, fields_ok a -> content a = None -> P a) ->
  (forall a c, P a -> type a = CREATE_FILE -> P (set_content a (trim c))) ->
  forall ls st, Forall P (actions st) -> Forall P (actions (run_lines st ls)).
Proof.
  intros Hnew Hset. unfold run_lines.
  induction ls as [|l ls IH]; intros st Hst; [exact Hst|].
  cbn [fold_left]. apply IH.
  destruct (parse_line_cases st l)
    as [(a & Hf & Hc & -> & _)|(_ & _ & [->|(_ & i & a & Hi & [Ht _] & ->)])].
  - apply Forall_app. split; [exact Hst|]. constructor; [auto|constructor].
  - exact Hst.
  - apply Forall_insert; [exact Hst|]. apply Hset; [|exact Ht].
    eapply Forall_lookup_1; eauto.
Qed.

(** X2.  Every action the parser returns has a non-empty path without a
    colon and a non-empty description without a closing bracket; MOVE_FILE
    and COPY_FILE actions carry their path again as source together with a
    non-empty, colon-free destination, and no other action has a source or
    a destination. *)
Theorem parsed_fields_ok (response : jstring) :
  Forall fields_ok (suggestCodeActions response).
Proof.
  unfold suggestCodeActions. apply run_lines_Forall.
  - auto.
  - intros a c Ha _. exact Ha.
  - constructor.
Qed.

Lemma run_lines_content_ok (ls : list jstring) :
  Forall content_ok (actions (run_lines init ls)).
Proof.
  apply run_lines_Forall.
  - intros a _ Hc. now left.
  - intros a c _ Ht. right. split; [exact Ht|].
    exists (trim c). split; [reflexivity|apply trim_idem].
  - constructor.
Qed.

(** X3.  Only CREATE_FILE actions ever carry content, and the content they
    carry is trimmed: it has no leading or trailing white space. *)
Theorem parsed_content_ok (response : jstring) :
  Forall content_ok (suggestCodeActions response).
Proof. unfold suggestCodeActions. apply run_lines_content_ok. Qed.

(** X4.  Without a line that carries the close marker [/FILE_CONTENT], no
    action gets any content: what an unterminated block has buffered is
    lost at the end of the input. *)
Theorem no_close_marker_no_content (response : jstring) :
  Forall (fun line => re_match re_fileContentEnd line = None) (split_lines response) ->
  Forall (fun a => content a = None) (suggestCodeActions response).
Proof.
  unfold suggestCodeActions, run_lines.
  assert (H : forall ls st,
    Forall (fun line => re_match re_fileContentEnd line = None) ls ->
    Forall (fun a => content a = None) (actions st) ->
    Forall (fun a => content a = None) (actions (fold_left parse_line ls st))).
  { induction ls as [|l ls IH]; intros st Hls Hst; [exact Hst|].
    apply Forall_cons in Hls as [Hl Hls]. cbn [fold_left]. apply IH; [exact Hls|].
    destruct (parse_line_cases st l)
      as [(a & _ & Hc & -> & _)|(_ & _ & [->|((_ & _ & Hclose) & _)])].
    - apply Forall_app. split; [exact Hst|]. now constructor.
    - exact Hst.
    - congruence. }
  intros Hls. apply H; [exact Hls|constructor].
Qed.

Lemma no_close_marker_no_content_witness :
  Forall (fun a => content a = None)
    (suggestCodeActions (join_with LF [js "[CREATE_FILE:f:d]"; js "[FILE_CONTENT:f]"; js "text"])).
Proof.
  apply no_close_marker_no_content.
  vm_compute. repeat constructor.
Defined.

(** X5.  A second open marker abandons the block that is open: the lines
    buffered so far are dropped and buffering starts afresh for the new
    path. *)
Theorem second_open_marker_abandons_block
  (st : PState) (open1 open2 p1 p2 : jstring) (body : list jstring) :
  opens_block open1 p1 -> Forall plain body -> opens_block open2 p2 ->
  run_lines st (open1 :: body ++ [open2]) = mkPState (actions st) [] p2.
Proof.
  intros H1 Hbody H2.
  pose proof (opens_block_nonempty _ _ H1) as Hp1.
  destruct H1 as (Hh1 & m1 & Hm1 & Hg1). destruct H2 as (Hh2 & m2 & Hm2 & Hg2).
  unfold run_lines. cbn [fold_left]. rewrite fold_left_app. cbn [fold_left].
  rewrite (parse_line_no_header st open1) by trivial. rewrite Hm1, Hg1.
  fold (run_lines (mkPState (actions st) [] p1) body).
  rewrite run_lines_plain by trivial.
  rewrite parse_line_no_header by trivial. rewrite Hm2, Hg2. reflexivity.
Qed.

Lemma second_open_marker_abandons_block_witness :
  run_lines init (js "[FILE_CONTENT:a]" :: [js "lost"] ++ [js "[FILE_CONTENT:b]"]) =
    mkPState (actions init) [] (js "b").
Proof.
  apply (second_open_marker_abandons_block init (js "[FILE_CONTENT:a]")
           (js "[FILE_CONTENT:b]") (js "a") (js "b") [js "lost"]).
  - split; [vm_compute; reflexivity|]. eexists. split; vm_compute; reflexivity.
  - repeat constructor; vm_compute; reflexivity.
  - split; [vm_compute; reflexivity|]. eexists. split; vm_compute; reflexivity.
Defined.

(** X6.  A line that matches a header pattern is taken as a marker even
    inside an open content block: it emits its action, it is not added to
    the buffer, and the block stays open. *)
Theorem header_line_inside_block (st : PState) (line : jstring) :
  is_header line = true ->
  currentContent (parse_line st line) = currentContent st /\
  currentFilePath (parse_line st line) = currentFilePath st /\
  exists a, content a = None /\ actions (parse_line st line) = actions st ++ [a].
Proof.
  intros Hh. split; [|split].
  - unfold is_header in Hh. cbn [existsb] in Hh. unfold parse_line.
    repeat match goal with
           | |- context [match re_match ?re line with _ => _ end] =>
               destruct (re_match re line) eqn:?; [reflexivity|]
           end.
    repeat match goal with
           | H : re_match _ line = None |- _ => rewrite H in Hh; clear H
           end.
    discriminate Hh.
  - unfold is_header in Hh. cbn [existsb] in Hh. unfold parse_line.
    repeat match goal with
           | |- context [match re_match ?re line with _ => _ end] =>
               destruct (re_match re line) eqn:?; [reflexivity|]
           end.
    repeat match goal with
           | H : re_match _ line = None |- _ => rewrite H in Hh; clear H
           end.
    discriminate Hh.
  - destruct (parse_line_cases st line) as [(a & _ & Hc & Ha & _)|(Hn & _)].
    + eauto.
    + congruence.
Qed.

Lemma header_line_inside_block_witness :
  currentContent (parse_line (mkPState [action_f] (js "kept") (js "f")) (js "[DELETE_FILE:g:why]"))
    = js "kept".
Proof.
  apply (header_line_inside_block (mkPState [action_f] (js "kept") (js "f"))
           (js "[DELETE_FILE:g:why]")).
  vm_compute. reflexivity.
Defined.

(* ===================================================================== *)
(** * Further properties of the file operations                           *)
(* ===================================================================== *)

Lemma writeFileSync_Return (cwd : list jstring) (p : npath) (d : jstring) (t t' : tree) :
  writeFileSync cwd p d t = (Return tt, t') ->
  trailing p = false /\ resolve cwd p <> [] /\ t' = <[resolve cwd p := File d]> t.
Proof.
  unfold writeFileSync, write_at. destruct (trailing p); [discriminate|].
  unfold node_at. destruct (resolve cwd p) as [|x k] eqn:Ek; [discriminate|].
  destruct (t !! (x :: k)) as [[d0|]|].
  - intros [= <-]. auto.
  - discriminate.
  - destruct (removelast (x :: k)) as [|y l].
    + intros [= <-]. auto.
    + destruct (t !! (y :: l)) as [[d1|]|]; try discriminate. intros [= <-]. auto.
Qed.

Lemma readFileSync_Return (cwd : list jstring) (p : npath) (t t' : tree) (d : jstring) :
  readFileSync cwd p t = (Return d, t') -> t' = t /\ stat cwd t p = Return (File d).
Proof.
  unfold readFileSync. destruct (stat cwd t p) as [[d0|]|e]; try discriminate.
  intros [= <- <-]. auto.
Qed.

Lemma stat_keeps (cwd : list jstring) (t t' : tree) (p : npath) (n : node) :
  stat cwd t p = Return n ->
  (forall k m, t !! k = Some m -> t' !! k = Some m) ->
  stat cwd t' p = Return n.
Proof.
  unfold stat, node_at. intros Hst Hkeep.
  destruct (resolve cwd p) as [|x k]; [exact Hst|].
  destruct (t !! (x :: k)) as [m|] eqn:E; [|discriminate].
  now rewrite (Hkeep _ _ E).
Qed.

(** The step "create the directory unless it exists" keeps every entry. *)
Lemma ensure_dir_keeps (cwd : list jstring) (dir : npath) (b : bool)
      (t t' : tree) (o : outcome unit) (k : list jstring) (n : node) :
  (if negb b then mkdirSync_recursive cwd dir else ret tt) t = (o, t') ->
  t !! k = Some n -> t' !! k = Some n.
Proof.
  destruct b; cbn [negb].
  - unfold ret. now intros [= _ <-].
  - unfold mkdirSync_recursive. intros Hm. eapply mkdir_p_keeps; eauto.
Qed.

(** X7.  With no workspace folder open, every file operation throws
    "No workspace folder open" and leaves the file system untouched. *)
Theorem no_workspace_no_effect (h : Host) (t : tree) (p q content : jstring) :
  workspaceFolders h = [] ->
  let refused {A} : outcome A * tree :=
    (Throw (JsError (js "No workspace folder open")), t) in
  createFile h p content t = refused /\ createDirectory h p t = refused /\
  deleteFile h p t = refused /\ deleteDirectory h p t = refused /\
  moveFile h p q t = refused /\ copyFile h p q t = refused /\
  editFile h p content t = refused /\ getFileContent h p t = refused.
Proof.
  intros Hws. cbv zeta.
  unfold createFile, createDirectory, deleteFile, deleteDirectory, moveFile,
    copyFile, editFile, getFileContent.
  open_service. rewrite Hws. repeat split.
Qed.

Lemma no_workspace_no_effect_witness :
  deleteFile (mkHost [] [] (fun _ _ => None)) (js "f.txt") tree_f =
    (Throw (JsError (js "No workspace folder open")), tree_f).
Proof.
  apply (no_workspace_no_effect (mkHost [] [] (fun _ _ => None)) tree_f
           (js "f.txt") [] [] eq_refl).
Defined.



(** X9.  The operations that create never destroy: whatever createFile or
    createDirectory do, succeed or throw, every entry that existed is still
    there unchanged, except the file createFile was asked to write. *)
Theorem creating_keeps_entries
  (h : Host) (root : jstring) (others : list jstring) (t : tree)
  (p content : jstring) (k : list jstring) (n : node) :
  workspaceFolders h = root :: others ->
  t !! k = Some n ->
  snd (createDirectory h p t) !! k = Some n /\
  (k <> resolve (cwd h) (join root p) -> snd (createFile h p content t) !! k = Some n).
Proof.
  intros Hws Hk. split.
  - unfold createDirectory. open_service. rewrite Hws.
    destruct (existsSync (cwd h) (join root p) t) as [[b|e] t0] eqn:Ex.
    + apply existsSync_state in Ex as ->. destruct b; [exact Hk|].
      unfold mkdirSync_recursive.
      destruct (mkdir_p t [] (resolve (cwd h) (join root p))) as [[[]|e] t1] eqn:Em;
        simpl; eapply mkdir_p_keeps; eauto.
    + unfold existsSync in Ex. destruct (stat _ _ _); discriminate.
  - intros Hne. unfold createFile. rewrite try_catch_rethrow.
    unfold workspaceRoot, bind. rewrite Hws. unfold ret at 1.
    destruct (existsSync (cwd h) (dirname (join root p)) t) as [[b|e] t0] eqn:Ex.
    2:{ unfold existsSync in Ex. destruct (stat _ _ _); discriminate. }
    apply existsSync_state in Ex as ->.
    destruct ((if negb b then mkdirSync_recursive (cwd h) (dirname (join root p))
               else ret tt) t) as [[[]|e] t1] eqn:Ed.
    + pose proof (ensure_dir_keeps _ _ _ _ _ _ _ _ Ed Hk) as Hk1.
      destruct (writeFileSync (cwd h) (join root p) content t1) as [[[]|e] t2] eqn:Ew.
      * apply writeFileSync_Return in Ew as (_ & _ & ->).
        unfold try_catch, showTextDocument, ret.
        destruct (showTextDocument_rejects h _ _); simpl;
          now rewrite lookup_insert_ne by congruence.
      * simpl. unfold writeFileSync, write_at in Ew.
        assert (t2 = t1) as ->; [|exact Hk1].
        destruct (trailing (join root p)); [congruence|].
        destruct (node_at t1 _) as [[?|]|]; try congruence.
        destruct (node_at t1 _) as [[?|]|]; congruence.
    + simpl. eapply ensure_dir_keeps; eauto.
Qed.

Lemma creating_keeps_entries_witness :
  snd (createDirectory host_ws (js "f.txt/sub") tree_f) !! [js "ws"; js "f.txt"]
    = Some (File (js "old")).
Proof.
  apply (proj1 (creating_keeps_entries host_ws (js "/ws") [] tree_f
                  (js "f.txt/sub") [] [js "ws"; js "f.txt"] (File (js "old"))
                  eq_refl eq_refl)).
Defined.

Lemma existsSync_Return (cwd : list jstring) (p : npath) (t : tree) :
  existsSync cwd p t =
    (Return (match stat cwd t p with Return _ => true | Throw _ => false end), t).
Proof. unfold existsSync. now destruct (stat cwd t p). Qed.

Lemma stat_absent_after_delete (cwd : list jstring) (t : tree) (p : npath) :
  resolve cwd p <> [] ->
  stat cwd (delete (resolve cwd p) t) p = Throw (SystemError ENOENT).
Proof.
  intros Hk. unfold stat, node_at.
  destruct (resolve cwd p) as [|x k]; [congruence|]. now rewrite lookup_delete_eq.
Qed.

(** X10.  deleteFile removes exactly the file it names: after a success the
    tree is the old one without that entry, the path no longer exists, and
    deleting it a second time fails with "does not exist". *)
Theorem deleteFile_removes_once
  (h : Host) (root : jstring) (others : list jstring) (t t' : tree)
  (p : jstring) (v : jsval) :
  workspaceFolders h = root :: others ->
  deleteFile h p t = (Return v, t') ->
  t' = delete (resolve (cwd h) (join root p)) t /\
  existsSync (cwd h) (join root p) t' = (Return false, t') /\
  deleteFile h p t' =
    (Throw (JsError (js "File " ++ p ++ js " does not exist")), t').
Proof.
  intros Hws. unfold deleteFile. open_service. rewrite Hws.
  rewrite existsSync_Return.
  destruct (stat (cwd h) t (join root p)) as [n|e] eqn:Est; cbn [negb]; [|discriminate].
  unfold unlinkSync. rewrite Est. destruct n as [d|]; [|discriminate].
  intros [= _ <-]. apply stat_File in Est as (_ & Hk & _).
  split; [reflexivity|].
  rewrite !existsSync_Return, stat_absent_after_delete by trivial. auto.
Qed.

Lemma deleteFile_removes_once_witness :
  deleteFile host_ws (js "f.txt") (snd (deleteFile host_ws (js "f.txt") tree_f)) =
    (Throw (JsError (js "File " ++ js "f.txt" ++ js " does not exist")),
     snd (deleteFile host_ws (js "f.txt") tree_f)).
Proof.
  apply (deleteFile_removes_once host_ws (js "/ws") [] tree_f _ (js "f.txt")
           (VString (js "File f.txt deleted successfully")) eq_refl).
  vm_compute. reflexivity.
Defined.

(** X11.  deleteFile refuses a directory: it throws the EISDIR error of
    unlink and the tree stays as it is. *)
Theorem deleteFile_refuses_directory
  (h : Host) (root : jstring) (others : list jstring) (t : tree) (p : jstring) :
  workspaceFolders h = root :: others ->
  stat (cwd h) t (join root p) = Return Dir ->
  deleteFile h p t = (Throw (SystemError EISDIR), t).
Proof.
  intros Hws Hst. unfold deleteFile. open_service. rewrite Hws.
  rewrite existsSync_Return, Hst. cbn [negb]. unfold unlinkSync. now rewrite Hst.
Qed.

Lemma deleteFile_refuses_directory_witness :
  deleteFile host_ws (js "d") {[ [js "ws"; js "d"] := Dir ]} =
    (Throw (SystemError EISDIR), {[ [js "ws"; js "d"] := Dir ]}).
Proof.
  apply (deleteFile_refuses_directory host_ws (js "/ws") []
           {[ [js "ws"; js "d"] := Dir ]} (js "d") eq_refl).
  vm_compute. reflexivity.
Defined.

Lemma below_Some (k k' s : list jstring) : below k k' = Some s -> k' = k ++ s.
Proof.
  revert k'. induction k as [|x k IH]; intros [|y k']; simpl; try congruence.
  destruct (str_eqb x y) eqn:E; [|discriminate].
  apply str_eqb_eq in E as ->. intros H%IH. now subst.
Qed.

Lemma under_prefix (k k' : list jstring) : under k k' = true <-> k `prefix_of` k'.
Proof.
  unfold under. split.
  - destruct (below k k') as [s|] eqn:E; [|discriminate].
    intros _. apply below_Some in E. now exists s.
  - intros [s ->]. now rewrite below_app.
Qed.

Lemma remove_subtree_lookup (k k' : list jstring) (t : tree) :
  remove_subtree k t !! k' = if under k k' then None else t !! k'.
Proof.
  unfold remove_subtree. destruct (under k k') eqn:E.
  - apply map_lookup_filter_None. right. intros n _. simpl. congruence.
  - destruct (t !! k') as [n|] eqn:En.
    + now apply map_lookup_filter_Some.
    + apply map_lookup_filter_None. now left.
Qed.

(** X12.  deleteDirectory removes whatever exists at the path, a regular
    file as well as a directory, together with everything below it, and
    nothing else: afterwards an entry exists if and only if it existed
    before and does not lie at or below the path. *)
Theorem deleteDirectory_removes_subtree
  (h : Host) (root : jstring) (others : list jstring) (t : tree) (p : jstring) :
  workspaceFolders h = root :: others ->
  existsSync (cwd h) (join root p) t = (Return true, t) ->
  exists t',
    deleteDirectory h p t =
      (Return (VString (js "Directory " ++ p ++ js " deleted successfully")), t') /\
    forall k, t' !! k =
      if decide (resolve (cwd h) (join root p) `prefix_of` k) then None else t !! k.
Proof.
  intros Hws Hex. exists (remove_subtree (resolve (cwd h) (join root p)) t). split.
  - unfold deleteDirectory. open_service. rewrite Hws, Hex. cbn [negb].
    unfold rmSync_recursive_force. apply existsSync_true in Hex as [n ->]. reflexivity.
  - intros k. rewrite remove_subtree_lookup.
    destruct (under _ k) eqn:E; destruct (decide _) as [Hp|Hp]; trivial.
    + exfalso. apply Hp. now apply under_prefix.
    + apply under_prefix in Hp. congruence.
Qed.

Lemma deleteDirectory_removes_subtree_witness :
  exists t',
    deleteDirectory host_ws (js "f.txt") tree_f =
      (Return (VString (js "Directory " ++ js "f.txt" ++ js " deleted successfully")), t') /\
    forall k, t' !! k =
      if decide (resolve (cwd host_ws) (join (js "/ws") (js "f.txt")) `prefix_of` k)
      then None else tree_f !! k.
Proof.
  apply (deleteDirectory_removes_subtree host_ws (js "/ws") [] tree_f (js "f.txt") eq_refl).
  vm_compute. reflexivity.
Defined.



(** X14.  getFileContent only reads: whatever it returns or throws, the
    file system is the one it was given. *)
Theorem getFileContent_read_only (h : Host) (t : tree) (p : jstring) :
  snd (getFileContent h p t) = t.
Proof.
  unfold getFileContent. open_service.
  destruct (workspaceFolders h) as [|root rest]; [reflexivity|].
  rewrite existsSync_Return.
  destruct (stat (cwd h) t (join root p)) as [n|e] eqn:Est; cbn [negb]; [|reflexivity].
  unfold readFileSync. rewrite Est. now destruct n.
Qed.

Lemma open_in_editor_swallowed (h : Host) (fp : npath) (t : tree) :
  try_catch (showTextDocument h fp) (fun _ => ret tt) t = (Return tt, t).
Proof.
  unfold try_catch, showTextDocument, ret.
  now destruct (showTextDocument_rejects h t fp).
Qed.

(** X15.  createFile does not depend on the editor: whether
    showTextDocument resolves or rejects, createFile returns the same
    result and leaves the same tree. *)
Theorem createFile_ignores_editor (h h' : Host) (t : tree) (p content : jstring) :
  workspaceFolders h = workspaceFolders h' -> cwd h = cwd h' ->
  createFile h p content t = createFile h' p content t.
Proof.
  intros Hws Hcwd. unfold createFile. rewrite !try_catch_rethrow.
  unfold workspaceRoot, bind. rewrite <- Hws, <- Hcwd.
  destruct (workspaceFolders h) as [|root rest]; [reflexivity|].
  destruct (ret root t) as [[r|e] t0']; [|reflexivity].
  destruct (existsSync (cwd h) (dirname (join r p)) t0') as [[b|e] t0]; [|reflexivity].
  destruct ((if negb b then mkdirSync_recursive (cwd h) (dirname (join r p))
             else ret tt) t0) as [[[]|e] t1]; [|reflexivity].
  destruct (writeFileSync (cwd h) (join r p) content t1) as [[[]|e] t2];
    [|reflexivity].
  now rewrite !open_in_editor_swallowed.
Qed.

Lemma createFile_ignores_editor_witness :
  createFile host_ws (js "a.txt") (js "x") ∅ =
  createFile (mkHost [js "/ws"] [] (fun _ _ => Some (JsError (js "cannot open"))))
             (js "a.txt") (js "x") ∅.
Proof.
  apply createFile_ignores_editor; reflexivity.
Defined.

Lemma write_at_Return (k : list jstring) (d : jstring) (t t' : tree) :
  write_at k d t = (Return tt, t') -> k <> [] /\ t' = <[k := File d]> t.
Proof.
  unfold write_at, node_at. destruct k as [|x k]; [discriminate|].
  destruct (t !! (x :: k)) as [[d0|]|].
  - intros [= <-]. auto.
  - discriminate.
  - destruct (removelast (x :: k)) as [|y l].
    + intros [= <-]. auto.
    + destruct (t !! (y :: l)) as [[d1|]|]; try discriminate. intros [= <-]. auto.
Qed.

Lemma segs_eqb_eq (k k' : list jstring) : segs_eqb k k' = true -> k = k'.
Proof.
  unfold segs_eqb. destruct (below k k') as [[|x s]|] eqn:E; try discriminate.
  intros _. apply below_Some in E. now rewrite app_nil_r in E.
Qed.

Lemma getFileContent_of_stat
  (h : Host) (root : jstring) (others : list jstring) (t : tree) (p d : jstring) :
  workspaceFolders h = root :: others ->
  stat (cwd h) t (join root p) = Return (File d) ->
  getFileContent h p t = (Return d, t).
Proof.
  intros Hws Hst. unfold getFileContent. open_service. rewrite Hws.
  rewrite existsSync_Return, Hst. cbn [negb]. unfold readFileSync. now rewrite Hst.
Qed.

Lemma stat_insert_other (cwd : list jstring) (t : tree) (p : npath)
      (k : list jstring) (d n : jstring) :
  stat cwd t p = Return (File n) ->
  stat cwd (<[k := File d]> t) p =
    Return (File (if decide (k = resolve cwd p) then d else n)).
Proof.
  intros Hst. pose proof (stat_File _ _ _ _ Hst) as (Htr & Hk & Hlk).
  unfold stat, node_at. destruct (resolve cwd p) as [|x l] eqn:E; [congruence|].
  destruct (decide (k = x :: l)) as [->|Hne].
  - now rewrite lookup_insert_eq, Htr.
  - now rewrite lookup_insert_ne, Hlk, Htr.
Qed.

(** X16.  Whenever copyFile succeeds, the source was a regular file, and
    afterwards both the source path and the destination path read as the
    content the source had. *)
Theorem copyFile_copies_content
  (h : Host) (t t' : tree) (p q : jstring) (v : jsval) :
  copyFile h p q t = (Return v, t') ->
  exists d,
    getFileContent h p t = (Return d, t) /\
    getFileContent h q t' = (Return d, t') /\
    getFileContent h p t' = (Return d, t').
Proof.
  unfold copyFile. rewrite try_catch_rethrow. unfold workspaceRoot, bind.
  destruct (workspaceFolders h) as [|root rest] eqn:Hws; [discriminate|]. unfold ret at 1.
  rewrite existsSync_Return.
  destruct (stat (cwd h) t (join root p)) as [n|e] eqn:Est; cbn [negb]; [|discriminate].
  rewrite existsSync_Return.
  set (b := match stat (cwd h) t (dirname (join root q)) with
            | Return _ => true | Throw _ => false end).
  destruct ((if negb b then mkdirSync_recursive (cwd h) (dirname (join root q))
             else ret tt) t) as [[[]|e] t1] eqn:Ed; [|discriminate].
  unfold copyFileSync, bind.
  destruct (readFileSync (cwd h) (join root p) t1) as [[d|e] t1'] eqn:Er; [|discriminate].
  apply readFileSync_Return in Er as [-> Hst1].
  destruct (writeFileSync (cwd h) (join root q) d t1) as [[[]|e] t2] eqn:Ew;
    [|discriminate].
  apply writeFileSync_Return in Ew as (Htr & Hk & ->).
  unfold ret. intros [= _ <-].
  assert (Hkeep : forall k m, t !! k = Some m -> t1 !! k = Some m).
  { intros k m. eapply ensure_dir_keeps; eauto. }
  pose proof (stat_keeps _ _ _ _ _ Est Hkeep) as Hst1'.
  rewrite Hst1 in Hst1'. injection Hst1' as <-.
  exists d. split; [|split].
  - eapply getFileContent_of_stat; eauto.
  - eapply getFileContent_of_stat; eauto. now apply stat_insert_File.
  - eapply getFileContent_of_stat; eauto.
    rewrite (stat_insert_other _ _ _ _ _ _ Hst1). now destruct (decide _).
Qed.

Lemma copyFile_copies_content_witness :
  exists d,
    getFileContent host_ws (js "f.txt") tree_f = (Return d, tree_f) /\
    getFileContent host_ws (js "x/g.txt") (snd (copyFile host_ws (js "f.txt") (js "x/g.txt") tree_f))
      = (Return d, snd (copyFile host_ws (js "f.txt") (js "x/g.txt") tree_f)) /\
    getFileContent host_ws (js "f.txt") (snd (copyFile host_ws (js "f.txt") (js "x/g.txt") tree_f))
      = (Return d, snd (copyFile host_ws (js "f.txt") (js "x/g.txt") tree_f)).
Proof.
  apply (copyFile_copies_content host_ws tree_f _ (js "f.txt") (js "x/g.txt")
           (VString (js "File copied from f.txt to x/g.txt"))).
  vm_compute. reflexivity.
Defined.

(** X17.  Whenever moveFile succeeds on a source that is a regular file,
    the destination reads as the content the source had, and, unless
    source and destination are the same place, the source no longer
    exists. *)
Theorem moveFile_moves_content
  (h : Host) (root : jstring) (others : list jstring) (t t' : tree)
  (p q d : jstring) (v : jsval) :
  workspaceFolders h = root :: others ->
  stat (cwd h) t (join root p) = Return (File d) ->
  moveFile h p q t = (Return v, t') ->
  getFileContent h q t' = (Return d, t') /\
  (resolve (cwd h) (join root p) <> resolve (cwd h) (join root q) ->
   existsSync (cwd h) (join root p) t' = (Return false, t')).
Proof.
  intros Hws Hst. unfold moveFile. rewrite try_catch_rethrow.
  unfold workspaceRoot, bind. rewrite Hws. unfold ret at 1.
  rewrite existsSync_Return, Hst. cbn [negb].
  rewrite existsSync_Return.
  set (b := match stat (cwd h) t (dirname (join root q)) with
            | Return _ => true | Throw _ => false end).
  destruct ((if negb b then mkdirSync_recursive (cwd h) (dirname (join root q))
             else ret tt) t) as [[[]|e] t1] eqn:Ed; [|discriminate].
  assert (Hkeep : forall k m, t !! k = Some m -> t1 !! k = Some m).
  { intros k m. eapply ensure_dir_keeps; eauto. }
  pose proof (stat_keeps _ _ _ _ _ Hst Hkeep) as Hst1.
  pose proof (stat_File _ _ _ _ Hst1) as (Htrs & Hks & Hlk).
  unfold renameSync. rewrite Hst1.
  destruct (trailing (join root q)) eqn:Htr; [discriminate|].
  destruct (segs_eqb _ _) eqn:Eq.
  - apply segs_eqb_eq in Eq. unfold ret. intros [= _ <-]. split.
    + eapply getFileContent_of_stat; eauto.
      unfold stat, node_at. rewrite <- Eq.
      destruct (resolve (cwd h) (join root p)); [congruence|]. now rewrite Hlk, Htr.
    + congruence.
  - destruct (write_at _ d (delete _ t1)) as [[[]|e] t2] eqn:Ew; [|discriminate].
    apply write_at_Return in Ew as (Hkd & ->). unfold ret. intros [= _ <-]. split.
    + eapply getFileContent_of_stat; eauto. now apply stat_insert_File.
    + intros Hne. rewrite existsSync_Return. unfold stat, node_at.
      destruct (resolve (cwd h) (join root p)) as [|x l] eqn:E; [congruence|].
      rewrite lookup_insert_ne by congruence. now rewrite lookup_delete_eq.
Qed.

Lemma moveFile_moves_content_witness :
  getFileContent host_ws (js "x/g.txt") (snd (moveFile host_ws (js "f.txt") (js "x/g.txt") tree_f))
    = (Return (js "old"), snd (moveFile host_ws (js "f.txt") (js "x/g.txt") tree_f)).
Proof.
  apply (proj1 (moveFile_moves_content host_ws (js "/ws") [] tree_f _
           (js "f.txt") (js "x/g.txt") (js "old")
           (VString (js "File moved from f.txt to x/g.txt")) eq_refl
           ltac:(vm_compute; reflexivity) ltac:(vm_compute; reflexivity))).
Defined.

(* ===================================================================== *)
(** * readProjectFiles and isImportantFile                                *)
(* ===================================================================== *)

Lemma read_one_eq (h : Host) (error_text : exn -> jstring) (root fp : jstring)
      (files : dict) (t : tree) :
  read_one h error_text root fp files t =
    (Return (dict_set fp (entry_for h error_text root t fp) files), t).
Proof.
  unfold read_one, entry_for, try_catch, bind. rewrite existsSync_Return.
  unfold readFileSync, ret.
  destruct (stat (cwd h) t (join root fp)) as [[d|]|e] eqn:E;
    cbv beta iota; rewrite ?E; reflexivity.
Qed.

Lemma read_all_eq (h : Host) (error_text : exn -> jstring) (root : jstring)
      (t : tree) (fps : list jstring) (files : dict) :
  exists files',
    read_all h error_text root fps files t = (Return files', t) /\
    forall k, files' !! k =
      if decide (k ∈ fps /\ k <> js "__proto__")
      then Some (entry_for h error_text root t k) else files !! k.
Proof.
  revert files. induction fps as [|fp fps IH]; intros files.
  - exists files. split; [reflexivity|]. intros k.
    destruct (decide _) as [[Hin _]|_]; [|reflexivity]. now apply elem_of_nil in Hin.
  - cbn [read_all]. unfold bind. rewrite read_one_eq.
    destruct (IH (dict_set fp (entry_for h error_text root t fp) files))
      as (files' & -> & Hl).
    exists files'. split; [reflexivity|]. intros k. rewrite Hl.
    destruct (decide (k ∈ fps /\ k <> js "__proto__")) as [[Hin Hp]|Hn].
    + destruct (decide _) as [_|Hn']; [reflexivity|].
      exfalso. apply Hn'. split; [now apply elem_of_cons; right|exact Hp].
    + unfold dict_set. destruct (str_eqb fp (js "__proto__")) eqn:E.
      * apply str_eqb_eq in E. destruct (decide _) as [[Hin Hp]|_]; [|reflexivity].
        exfalso. apply elem_of_cons in Hin as [->|Hin]; [congruence|]. now apply Hn.
      * assert (fp <> js "__proto__") by (intros Heq; apply str_eqb_eq in Heq; congruence).
        destruct (decide (k = fp)) as [->|Hne].
        -- rewrite lookup_insert_eq. destruct (decide _) as [_|Hn']; [reflexivity|].
           exfalso. apply Hn'. split; [apply elem_of_cons; now left|trivial].
        -- rewrite lookup_insert_ne by congruence.
           destruct (decide _) as [[Hin Hp]|_]; [|reflexivity].
           exfalso. apply elem_of_cons in Hin as [->|Hin]; [congruence|]. now apply Hn.
Qed.

(** X18.  With a workspace open, readProjectFiles never throws and never
    changes the file system.  Its result has an entry exactly for the
    requested paths (the key "__proto__" excepted, which a plain object
    cannot hold): the content of the file when the path names one, the
    marker "[FILE NOT FOUND: p]" when nothing exists there, and the error
    text when the path is a directory. *)
Theorem readProjectFiles_absorbs_errors
  (h : Host) (error_text : exn -> jstring) (root : jstring) (others : list jstring)
  (t : tree) (filePaths : list jstring) :
  workspaceFolders h = root :: others ->
  exists files,
    readProjectFiles h error_text filePaths t = (Return files, t) /\
    forall k, files !! k =
      if decide (k ∈ filePaths /\ k <> js "__proto__")
      then Some (entry_for h error_text root t k) else None.
Proof.
  intros Hws. unfold readProjectFiles. rewrite try_catch_rethrow.
  unfold workspaceRoot, bind. rewrite Hws. unfold ret at 1.
  destruct (read_all_eq h error_text root t filePaths ∅) as (files & -> & Hl).
  exists files. split; [reflexivity|]. intros k. rewrite Hl.
  destruct (decide _); [reflexivity|apply lookup_empty].
Qed.

Lemma readProjectFiles_absorbs_errors_witness :
  exists files,
    readProjectFiles host_ws (fun _ => js "Error") [js "f.txt"; js "nope"; js "__proto__"] tree_f
      = (Return files, tree_f) /\
    forall k, files !! k =
      if decide (k ∈ [js "f.txt"; js "nope"; js "__proto__"] /\ k <> js "__proto__")
      then Some (entry_for host_ws (fun _ => js "Error") (js "/ws") tree_f k) else None.
Proof.
  apply (readProjectFiles_absorbs_errors host_ws (fun _ => js "Error") (js "/ws") []
           tree_f [js "f.txt"; js "nope"; js "__proto__"] eq_refl).
Defined.

Lemma startsWith_spec (s pat : jstring) :
  startsWith s pat = true <-> exists b, s = pat ++ b.
Proof.
  revert s. induction pat as [|x pat IH]; intros s; simpl.
  - split; [intros _; now exists s|reflexivity].
  - destruct s as [|y s].
    + split; [discriminate|]. intros [b [=]].
    + rewrite andb_true_iff, N.eqb_eq, IH. split.
      * intros [-> [b ->]]. now exists b.
      * intros [b [= -> ->]]. split; [reflexivity|now exists b].
Qed.

Lemma includes_spec (s pat : jstring) :
  includes s pat = true <-> exists a b, s = a ++ pat ++ b.
Proof.
  induction s as [|y s IH]; simpl.
  - rewrite orb_false_r, startsWith_spec. split.
    + intros [b ->]. now exists [], b.
    + intros (a & b & Heq). destruct a; [now exists b|discriminate].
  - rewrite orb_true_iff, startsWith_spec, IH. split.
    + intros [[b ->]|(a & b & ->)]; [now exists [], b|now exists (y :: a), b].
    + intros ([|x a] & b & Heq).
      * left. now exists b.
      * right. injection Heq as -> ->. now exists a, b.
Qed.

Lemma endsWith_includes (s pat : jstring) :
  endsWith s pat = true -> includes s pat = true.
Proof.
  unfold endsWith. rewrite startsWith_spec, includes_spec. intros [b Hb].
  exists (rev b), []. rewrite app_nil_r.
  rewrite <- (rev_involutive s), Hb, rev_app_distr. now rewrite rev_involutive.
Qed.

(** X19.  isImportantFile holds exactly for the paths in which one of the
    listed names occurs somewhere, as a substring: the endsWith test adds
    nothing, and a name inside a longer file or directory name counts. *)
Theorem isImportantFile_is_substring_test (filePath : jstring) :
  isImportantFile filePath = true <->
  exists pattern a b, pattern ∈ importantPatterns /\ filePath = a ++ pattern ++ b.
Proof.
  unfold isImportantFile. rewrite existsb_exists. split.
  - intros (pat & Hin & Hor). exists pat.
    assert (Hinc : includes filePath pat = true).
    { apply orb_true_iff in Hor as [H|H]; [exact H|now apply endsWith_includes]. }
    apply includes_spec in Hinc as (a & b & ->). exists a, b.
    split; [now apply list_elem_of_In|reflexivity].
  - intros (pat & a & b & Hin & ->). exists pat.
    split; [now apply list_elem_of_In|].
    apply orb_true_iff. left. apply includes_spec. now exists a, b.
Qed.

(* ===================================================================== *)
(** * executeCodeAction and the executeActions handler                    *)
(* ===================================================================== *)






Lemma first_alt_capture cont (alts : list jstring) (s w : jstring) (gs : list jstring) :
  first_alt alts cont s = Some (w, gs) ->
  exists a gs', gs = a :: gs' /\ a ∈ alts.
Proof.
  induction alts as [|a alts IH]; simpl; [discriminate|].
  assert (Hrec : first_alt alts cont s = Some (w, gs) ->
                 exists a0 gs', gs = a0 :: gs' /\ a0 ∈ a :: alts).
  { intros (a0 & gs' & -> & Hin)%IH. exists a0, gs'. split; [reflexivity|].
    now apply elem_of_cons; right. }
  destruct (strip_prefix a s) as [s'|]; [|exact Hrec].
  destruct (cont s') as [[w' gs']|]; [|exact Hrec].
  intros [= <- <-]. exists a, gs'. split; [reflexivity|]. apply elem_of_cons; now left.
Qed.

Lemma exec_loop_types (fuel : nat) (rest : jstring) :
  Forall (fun c => chat_type c ∈
            [js "create_file"; js "edit_file"; js "delete_file";
             js "rename_file"; js "create_folder"])
         (exec_loop fuel rest).
Proof.
  revert rest. induction fuel as [|fuel IH]; intros rest; simpl; [constructor|].
  destruct (exec actionRegex rest) as [[[pre m] post]|] eqn:E; [|constructor].
  constructor; [|apply IH]. cbn [chat_type].
  apply exec_Some in E as (w & gs & -> & Hm & _).
  unfold actionRegex in Hm. cbn [lit js map app match_here] in Hm.
  destruct (w ++ post) as [|x s]; [discriminate|].
  destruct (N.eqb x _); [|discriminate].
  destruct (first_alt _ _ s) as [[w' gs']|] eqn:Ea; [|discriminate].
  injection Hm as _ <-.
  apply first_alt_capture in Ea as (a & gs'' & -> & Hin).
  unfold group. cbn [nth].
  repeat (apply elem_of_cons in Hin as [->|Hin];
          [vm_compute; repeat (try (left; reflexivity); right)|]).
  now apply elem_of_nil in Hin.
Qed.

(** X21.  No action found by parseCodeActions, the parser behind chat, can
    be executed: its type is the lower-cased label, which matches no case
    of executeCodeAction, so the call only shows "Unknown action type" and
    leaves the file system alone. *)
Theorem chat_actions_are_unknown
  (h : Host) (error_text : exn -> jstring) (response : jstring) :
  Forall (fun c => forall w,
            executeCodeAction h error_text (of_ChatAction c) w =
              (fst w, snd w ++ [ErrorMessage (js "Unknown action type: " ++ chat_type c)]))
         (parseCodeActions response).
Proof.
  unfold parseCodeActions.
  eapply Forall_impl; [apply exec_loop_types|].
  intros c Hin w. unfold executeCodeAction, of_ChatAction. cbn [rt_type].
  repeat (apply elem_of_cons in Hin as [->|Hin]; [reflexivity|]).
  now apply elem_of_nil in Hin.
Qed.

Lemma editFile_on_file
  (h : Host) (root : jstring) (others : list jstring) (t : tree)
  (p content old : jstring) :
  workspaceFolders h = root :: others ->
  stat (cwd h) t (join root p) = Return (File old) ->
  showTextDocument_rejects h (<[resolve (cwd h) (join root p) := File content]> t)
    (join root p) = None ->
  editFile h p content t =
    (Return (VBoolean true), <[resolve (cwd h) (join root p) := File content]> t).
Proof.
  intros Hws Hst Hshow.
  pose proof (stat_File _ _ _ _ Hst) as (Htr & Hk & Hlk).
  unfold editFile. open_service. rewrite Hws.
  rewrite existsSync_Return, Hst. cbn [negb].
  unfold readFileSync, writeFileSync, write_at, showTextDocument.
  rewrite Hst, Htr. cbv beta iota.
  unfold node_at. destruct (resolve (cwd h) (join root p)) as [|x k] eqn:Ek; [congruence|].
  rewrite Hlk. cbv beta iota. now rewrite Hshow.
Qed.

(** X22.  An EDIT_FILE action that the parser found never carries content,
    so executing it on an existing file replaces the file's content by the
    empty string. *)
Theorem parsed_edit_empties_file
  (h : Host) (error_text : exn -> jstring) (root : jstring) (others : list jstring)
  (response : jstring) (a : CodeAction) (t : tree) (log : list notification)
  (old : jstring) :
  workspaceFolders h = root :: others ->
  a ∈ suggestCodeActions response -> type a = EDIT_FILE ->
  stat (cwd h) t (join root (path a)) = Return (File old) ->
  showTextDocument_rejects h (<[resolve (cwd h) (join root (path a)) := File []]> t)
    (join root (path a)) = None ->
  executeCodeAction h error_text (of_CodeAction a) (t, log) =
    (<[resolve (cwd h) (join root (path a)) := File []]> t,
     log ++ [Information (VString (js "File " ++ path a ++ js " updated successfully"))]).
Proof.
  intros Hws Hin Ht Hst Hshow.
  assert (Hc : content a = None).
  { pose proof (run_lines_content_ok (split_lines response)) as Hall.
    rewrite Forall_forall in Hall. destruct (Hall a Hin) as [Hc|(Ht' & _)]; congruence. }
  unfold executeCodeAction, of_CodeAction. cbn [rt_type rt_path rt_content].
  rewrite Ht, Hc. cbn [type_name or_empty].
  change (str_eqb (js "EDIT_FILE") (js "CREATE_FILE")) with false.
  change (str_eqb (js "EDIT_FILE") (js "CREATE_DIRECTORY")) with false.
  change (str_eqb (js "EDIT_FILE") (js "DELETE_FILE")) with false.
  change (str_eqb (js "EDIT_FILE") (js "DELETE_DIRECTORY")) with false.
  change (str_eqb (js "EDIT_FILE") (js "MOVE_FILE")) with false.
  change (str_eqb (js "EDIT_FILE") (js "COPY_FILE")) with false.
  change (str_eqb (js "EDIT_FILE") (js "EDIT_FILE")) with true.
  cbv beta iota. unfold attempt. cbn [fst snd].
  now rewrite (editFile_on_file h root others t (path a) [] old Hws Hst Hshow).
Qed.

Lemma parsed_edit_empties_file_witness :
  executeCodeAction host_ws (fun _ => js "Error")
    (of_CodeAction (mkAction EDIT_FILE (js "f.txt") None (js "fix") None None)) (tree_f, []) =
    (<[resolve (cwd host_ws) (join (js "/ws") (js "f.txt")) := File []]> tree_f,
     [] ++ [Information (VString (js "File " ++ js "f.txt" ++ js " updated successfully"))]).
Proof.
  apply (parsed_edit_empties_file host_ws (fun _ => js "Error") (js "/ws") []
           (js "[EDIT_FILE:f.txt:fix]")
           (mkAction EDIT_FILE (js "f.txt") None (js "fix") None None)
           tree_f [] (js "old") eq_refl).
  - vm_compute. apply elem_of_cons. now left.
  - reflexivity.
  - vm_compute. reflexivity.
  - reflexivity.
Defined.

(* ===================================================================== *)
(** * listDirectory                                                       *)
(* ===================================================================== *)

Lemma split_on_slash_free (sep : N) (s : jstring) :
  Forall (fun x => occ sep x = 0) (split_on sep s).
Proof.
  induction s as [|c s IH]; simpl.
  - repeat constructor.
  - destruct (N.eqb c sep) eqn:E.
    + constructor; [reflexivity|exact IH].
    + destruct (split_on sep s) as [|l ls]; [repeat constructor; simpl; now rewrite E|].
      apply Forall_cons in IH as [Hl Hls]. constructor; [|exact Hls].
      simpl. now rewrite E.
Qed.

Lemma str_eqb_neq (a b : jstring) : str_eqb a b = false <-> a <> b.
Proof.
  rewrite <- str_eqb_eq. destruct (str_eqb a b); split; congruence.
Qed.

(** Normalization yields valid names only. *)
Lemma normalize_segs_valid (l acc : list jstring) :
  Forall (fun x => occ SLASH x = 0) l -> Forall valid_name acc ->
  Forall valid_name (normalize_segs false acc l).
Proof.
  revert acc. induction l as [|x l IH]; intros acc Hl Hacc; simpl.
  - apply Forall_forall. intros y Hy. rewrite Forall_forall in Hacc.
    apply Hacc. apply list_elem_of_In. apply list_elem_of_In in Hy.
    now apply in_rev.
  - apply Forall_cons in Hl as [Hx Hl].
    destruct (str_eqb x []) eqn:E1; simpl; [now apply IH|].
    destruct (str_eqb x DOT) eqn:E2; simpl; [now apply IH|].
    destruct (str_eqb x DOTDOT) eqn:E3.
    + destruct acc as [|y acc]; [now apply IH|].
      apply Forall_cons in Hacc as [Hy Hacc].
      destruct (str_eqb y DOTDOT); apply IH; auto.
    + apply IH; [exact Hl|]. constructor; [|exact Hacc].
      apply str_eqb_neq in E1, E2, E3. now repeat split.
Qed.

Lemma normalize_segs_of_valid (l acc : list jstring) :
  Forall (fun x => x = [] \/ valid_name x) l ->
  normalize_segs false acc l = rev acc ++ filter (fun x => x <> []) l.
Proof.
  revert acc. induction l as [|x l IH]; intros acc Hl; simpl.
  - now rewrite app_nil_r.
  - apply Forall_cons in Hl as [Hx Hl]. rewrite filter_cons.
    destruct Hx as [->|(H1 & H2 & H3 & _)].
    + simpl. now rewrite IH.
    + apply str_eqb_neq in H1 as E1. apply str_eqb_neq in H2 as E2.
      apply str_eqb_neq in H3 as E3. rewrite E1, E2, E3. simpl.
      rewrite IH by trivial. simpl. case_decide; [|congruence].
      now rewrite <- app_assoc.
Qed.

Lemma split_join_with (sep : N) (l : list jstring) :
  l <> [] -> Forall (fun x => occ sep x = 0) l ->
  split_on sep (join_with sep l) = l.
Proof.
  induction l as [|x l IH]; intros Hne Hl; [congruence|].
  apply Forall_cons in Hl as [Hx Hl]. destruct l as [|y l].
  - simpl. now apply split_on_none.
  - change (join_with sep (x :: y :: l)) with (x ++ sep :: join_with sep (y :: l)).
    rewrite split_on_app, IH by (trivial || discriminate).
    now rewrite split_on_none.
Qed.

Lemma ends_with_slash_app (a b : jstring) :
  b <> [] -> ends_with_slash (a ++ b) = ends_with_slash b.
Proof.
  intros Hb. unfold ends_with_slash. rewrite rev_app_distr.
  destruct (rev b) as [|c r] eqn:E; [|reflexivity].
  apply (f_equal (@rev N)) in E. rewrite rev_involutive in E. now subst.
Qed.

Lemma valid_name_no_trailing_slash (name : jstring) :
  valid_name name -> ends_with_slash name = false.
Proof.
  intros (Hne & _ & _ & Hocc). unfold ends_with_slash.
  destruct (rev name) as [|c r] eqn:E; [reflexivity|].
  apply (f_equal (@rev N)) in E. rewrite rev_involutive in E. subst name.
  simpl in Hocc. rewrite occ_app in Hocc. simpl in Hocc.
  destruct (N.eqb c SLASH); [lia|reflexivity].
Qed.

(** Joining a valid name to the rendering of a normalized absolute path
    appends the name. *)
Lemma join_render_child (fp : npath) (name : jstring) :
  absolute fp = true -> Forall valid_name (segs fp) -> valid_name name ->
  join (render fp) name = mkPath true (segs fp ++ [name]) false.
Proof.
  intros Habs Hsegs Hname.
  pose proof Hname as (Hne & _ & _ & Hfree).
  assert (Hsplit : exists body, render fp = SLASH :: body /\
            Forall (fun x => x = [] \/ valid_name x) (split_on SLASH body) /\
            filter (fun x => x <> []) (split_on SLASH body) = segs fp).
  { unfold render. rewrite Habs. destruct (segs fp) as [|x sg] eqn:Esg.
    - exists []. split; [reflexivity|]. split; [|reflexivity].
      constructor; [now left|constructor].
    - assert (Hfree' : Forall (fun y => occ SLASH y = 0) (x :: sg)).
      { eapply Forall_impl; [exact Hsegs|]. now intros y (_ & _ & _ & Hy). }
      assert (Hkeep : filter (fun y : jstring => y <> []) (x :: sg) = x :: sg).
      { clear Hfree' Esg. induction Hsegs as [|y l Hy Hl IHl]; [reflexivity|].
        rewrite filter_cons, IHl. case_decide; [reflexivity|].
        destruct Hy as [Hy _]. congruence. }
      destruct (trailing fp).
      + exists (join_with SLASH (x :: sg) ++ SLASH :: []). split; [reflexivity|].
        rewrite split_on_app, split_join_with by (trivial || discriminate).
        split.
        * apply Forall_app. split.
          -- eapply Forall_impl; [exact Hsegs|]. now right.
          -- constructor; [now left|constructor].
        * rewrite filter_app, Hkeep. simpl. rewrite filter_cons, filter_nil.
          case_decide; [congruence|]. now rewrite app_nil_r.
      + exists (join_with SLASH (x :: sg)). rewrite app_nil_r. split; [reflexivity|].
        rewrite split_join_with by (trivial || discriminate). split; [|exact Hkeep].
        eapply Forall_impl; [exact Hsegs|]. now right. }
  destruct Hsplit as (body & Hr & Hall & Hfilter).
  unfold join. rewrite Hr. destruct name as [|c name]; [congruence|].
  unfold normalize.
  change ((SLASH :: body) ++ [SLASH] ++ c :: name)
    with (SLASH :: (body ++ SLASH :: c :: name)).
  cbn [starts_with_slash]. rewrite N.eqb_refl. cbn [negb].
  assert (Hseg : normalize_segs false [] (split_on SLASH (SLASH :: body ++ SLASH :: c :: name))
                 = segs fp ++ [c :: name]).
  { change (SLASH :: body ++ SLASH :: c :: name)
      with ([] ++ SLASH :: (body ++ SLASH :: c :: name)).
    rewrite split_on_app. cbn [split_on app].
    rewrite split_on_app, (split_on_none SLASH (c :: name)) by trivial.
    rewrite normalize_segs_of_valid.
    - simpl. rewrite filter_cons. case_decide; [congruence|].
      rewrite filter_app, Hfilter. rewrite filter_cons, filter_nil.
      case_decide; [reflexivity|congruence].
    - constructor; [now left|]. apply Forall_app. split; [exact Hall|].
      constructor; [now right|constructor]. }
  rewrite Hseg.
  assert (Htr : ends_with_slash (SLASH :: body ++ SLASH :: c :: name) = false).
  { assert (SLASH :: body ++ SLASH :: c :: name
            = (SLASH :: body ++ [SLASH]) ++ c :: name) as ->
      by (simpl; now rewrite <- app_assoc).
    rewrite ends_with_slash_app by discriminate.
    now apply valid_name_no_trailing_slash. }
  rewrite Htr. destruct (segs fp ++ [c :: name]) eqn:E; [|reflexivity].
  now destruct (segs fp).
Qed.

Lemma child_name_Some (k k' : list jstring) (name : jstring) :
  child_name k k' = Some name <-> k' = k ++ [name].
Proof.
  unfold child_name. split.
  - destruct (below k k') as [[|x [|y s]]|] eqn:E; try discriminate.
    intros [= ->]. now apply below_Some.
  - intros ->. now rewrite below_app.
Qed.

Lemma children_spec (t : tree) (k : list jstring) (name : jstring) :
  name ∈ children t k <-> is_Some (t !! (k ++ [name])).
Proof.
  unfold children. rewrite list_elem_of_omap. split.
  - intros ([k' n] & Hin & Hc). apply elem_of_map_to_list in Hin.
    apply child_name_Some in Hc. simpl in Hc. subst. eauto.
  - intros [n Hn]. exists (k ++ [name], n). split.
    + now apply elem_of_map_to_list.
    + now apply child_name_Some.
Qed.

Lemma join_segs_valid (root p : jstring) :
  starts_with_slash root = true -> Forall valid_name (segs (join root p)).
Proof.
  intros Hr. destruct root as [|c root]; [discriminate|].
  assert (Hn : forall s, starts_with_slash (c :: s) = true ->
                 Forall valid_name (segs (normalize (c :: s)))).
  { intros s Hs. rewrite segs_normalize by discriminate. rewrite Hs.
    apply normalize_segs_valid; [apply split_on_slash_free|constructor]. }
  unfold join. destruct p as [|b p]; now apply Hn.
Qed.

Lemma statSync_child (cwd : list jstring) (fp : npath) (name : jstring) (t : tree) :
  absolute fp = true -> Forall valid_name (segs fp) -> valid_name name ->
  statSync_isDirectory cwd (join (render fp) name) t =
    match t !! (segs fp ++ [name]) with
    | Some Dir => (Return true, t)
    | Some (File _) => (Return false, t)
    | None => (Throw (SystemError ENOENT), t)
    end.
Proof.
  intros Ha Hs Hn. rewrite join_render_child by trivial.
  unfold statSync_isDirectory, stat, resolve, node_at. cbn [absolute segs trailing].
  destruct (segs fp ++ [name]) as [|x l] eqn:E; [now destruct (segs fp)|].
  now destruct (t !! (x :: l)) as [[d|]|].
Qed.

Lemma sort_items_spec (h : Host) (fp : npath) (t : tree) (items fs ds : list jstring) :
  absolute fp = true -> Forall valid_name (segs fp) ->
  Forall (fun item => valid_name item /\ is_Some (t !! (segs fp ++ [item]))) items ->
  exists fs' ds',
    sort_items h fp items fs ds t = (Return (fs', ds'), t) /\
    forall name,
      (name ∈ fs' <-> name ∈ fs \/
         (name ∈ items /\ exists d, t !! (segs fp ++ [name]) = Some (File d))) /\
      (name ∈ ds' <-> name ∈ ds \/
         (name ∈ items /\ t !! (segs fp ++ [name]) = Some Dir)).
Proof.
  intros Ha Hs. revert fs ds. induction items as [|item items IH]; intros fs ds Hitems.
  - exists fs, ds. split; [reflexivity|]. intros name.
    split; (split; [now left|]); intros [H|[H _]]; trivial; now apply elem_of_nil in H.
  - apply Forall_cons in Hitems as [[Hv [n Hn]] Hitems].
    cbn [sort_items]. unfold bind. rewrite statSync_child by trivial. rewrite Hn.
    destruct n as [d|].
    + destruct (IH (fs ++ [item]) ds Hitems) as (fs' & ds' & -> & Hspec).
      exists fs', ds'. split; [reflexivity|]. intros name.
      destruct (Hspec name) as [Hf Hd]. rewrite Hf, Hd. clear Hf Hd Hspec.
      rewrite elem_of_app, list_elem_of_singleton. setoid_rewrite elem_of_cons.
      split; split.
      * intros [[H| ->]|[H H']]; eauto.
      * intros [H|[[->|H] H']]; eauto.
      * intros [H|[H H']]; eauto.
      * intros [H|[[->|H] H']]; eauto. congruence.
    + destruct (IH fs (ds ++ [item]) Hitems) as (fs' & ds' & -> & Hspec).
      exists fs', ds'. split; [reflexivity|]. intros name.
      destruct (Hspec name) as [Hf Hd]. rewrite Hf, Hd. clear Hf Hd Hspec.
      rewrite elem_of_app, list_elem_of_singleton. setoid_rewrite elem_of_cons.
      split; split.
      * intros [H|[H H']]; eauto.
      * intros [H|[[->|H] [d H']]]; eauto. congruence.
      * intros [[H| ->]|[H H']]; eauto.
      * intros [H|[[->|H] H']]; eauto.
Qed.

(** X23.  On a directory of a tree whose entries have valid names,
    listDirectory succeeds without changing anything and sorts the entries
    of the directory by kind: a name is among the files exactly when the
    directory has a regular file of that name, and among the directories
    exactly when it has a subdirectory of that name. *)
Theorem listDirectory_sorts_entries
  (h : Host) (root : jstring) (others : list jstring) (t : tree) (p : jstring) :
  workspaceFolders h = root :: others ->
  starts_with_slash root = true ->
  names_ok t ->
  stat (cwd h) t (join root p) = Return Dir ->
  exists files directories,
    listDirectory h p t = (Return (files, directories), t) /\
    forall name,
      (name ∈ files <-> exists d, t !! (segs (join root p) ++ [name]) = Some (File d)) /\
      (name ∈ directories <-> t !! (segs (join root p) ++ [name]) = Some Dir).
Proof.
  intros Hws Habs Hok Hst.
  pose proof (join_absolute root p Habs) as Ha.
  pose proof (join_segs_valid root p Habs) as Hsegs.
  assert (Hres : resolve (cwd h) (join root p) = segs (join root p)).
  { unfold resolve. now rewrite Ha. }
  assert (Hitems : Forall (fun item => valid_name item /\
                     is_Some (t !! (segs (join root p) ++ [item])))
                     (children t (segs (join root p)))).
  { apply Forall_forall. intros item Hin. apply children_spec in Hin as [n Hn].
    split; [|eauto]. apply Hok in Hn. apply Forall_app in Hn as [_ Hn].
    now apply Forall_cons in Hn as [Hn _]. }
  destruct (sort_items_spec h (join root p) t _ [] [] Ha Hsegs Hitems)
    as (fs & ds & Hrun & Hspec).
  exists fs, ds. split.
  - unfold listDirectory. open_service. rewrite Hws.
    rewrite existsSync_Return, Hst. cbn [negb]. unfold readdirSync. rewrite Hst, Hres.
    exact Hrun.
  - intros name. destruct (Hspec name) as [Hf Hd]. rewrite Hf, Hd. split; split.
    + intros [H|[_ H]]; [now apply elem_of_nil in H|exact H].
    + intros [d Hd']. right. split; [|eauto]. apply children_spec. eauto.
    + intros [H|[_ H]]; [now apply elem_of_nil in H|exact H].
    + intros Hd'. right. split; [|exact Hd']. apply children_spec. eauto.
Qed.

Lemma names_ok_sample :
  names_ok {[ [js "ws"; js "f.txt"] := File (js "old"); [js "ws"] := Dir ]}.
Proof.
  intros k n Hk.
  apply lookup_insert_Some in Hk as [[<- _]|[_ Hk]].
  - repeat constructor; try discriminate.
  - apply lookup_singleton_Some in Hk as [<- _]. repeat constructor; discriminate.
Qed.

Lemma listDirectory_sorts_entries_witness :
  exists files directories,
    listDirectory host_ws (js ".")
      {[ [js "ws"; js "f.txt"] := File (js "old"); [js "ws"] := Dir ]} =
      (Return (files, directories),
       {[ [js "ws"; js "f.txt"] := File (js "old"); [js "ws"] := Dir ]}) /\
    forall name,
      (name ∈ files <-> exists d,
         ({[ [js "ws"; js "f.txt"] := File (js "old"); [js "ws"] := Dir ]} : tree)
           !! (segs (join (js "/ws") (js ".")) ++ [name]) = Some (File d)) /\
      (name ∈ directories <->
         ({[ [js "ws"; js "f.txt"] := File (js "old"); [js "ws"] := Dir ]} : tree)
           !! (segs (join (js "/ws") (js ".")) ++ [name]) = Some Dir).
Proof.
  apply (listDirectory_sorts_entries host_ws (js "/ws") [] _ (js ".") eq_refl eq_refl
           names_ok_sample).
  vm_compute. reflexivity.
Defined.

Lemma sort_items_state (h : Host) (fp : npath) (t : tree) (items fs ds : list jstring) :
  snd (sort_items h fp items fs ds t) = t.
Proof.
  revert fs ds. induction items as [|item items IH]; intros fs ds; [reflexivity|].
  cbn [sort_items]. unfold bind, statSync_isDirectory.
  destruct (stat (cwd h) t _) as [[d|]|e]; simpl; trivial.
Qed.

(** X24.  listDirectory only reads: whatever happens, the tree is the one
    it was given.  On a path that does not exist it throws "Directory ...
    does not exist", and on a regular file it throws the ENOTDIR error of
    readdir. *)
Theorem listDirectory_errors
  (h : Host) (root : jstring) (others : list jstring) (t : tree) (p : jstring) :
  workspaceFolders h = root :: others ->
  snd (listDirectory h p t) = t /\
  (existsSync (cwd h) (join root p) t = (Return false, t) ->
     listDirectory h p t =
       (Throw (JsError (js "Directory " ++ p ++ js " does not exist")), t)) /\
  (forall d, stat (cwd h) t (join root p) = Return (File d) ->
     listDirectory h p t = (Throw (SystemError ENOTDIR), t)).
Proof.
  intros Hws. unfold listDirectory. open_service. rewrite Hws.
  rewrite existsSync_Return. unfold readdirSync.
  destruct (stat (cwd h) t (join root p)) as [[d|]|e] eqn:Est; cbn [negb];
    cbv beta iota; rewrite ?Est; cbv beta iota.
  - split; [reflexivity|]. split; [discriminate|]. reflexivity.
  - split; [apply sort_items_state|]. split; [discriminate|]. intros d [=].
  - split; [reflexivity|]. split; [reflexivity|]. intros d [=].
Qed.

Lemma listDirectory_errors_witness :
  listDirectory host_ws (js "f.txt") tree_f = (Throw (SystemError ENOTDIR), tree_f).
Proof.
  apply (proj2 (proj2 (listDirectory_errors host_ws (js "/ws") [] tree_f (js "f.txt")
                         eq_refl)) (js "old")).
  vm_compute. reflexivity.
Defined.

(* ===================================================================== *)
(** * IntentManager                                                       *)
(* ===================================================================== *)

Lemma saveIntents_fields (rej : Snapshot -> bool) (st : Manager) :
  store (saveIntents rej st) = store st /\
  currentIntent (saveIntents rej st) = currentIntent st /\
  intentHistory (saveIntents rej st) = intentHistory st.
Proof. unfold saveIntents. now destruct (rej (snapshot st)). Qed.

Lemma saveIntents_store rej st : store (saveIntents rej st) = store st.
Proof. apply saveIntents_fields. Qed.
Lemma saveIntents_current rej st : currentIntent (saveIntents rej st) = currentIntent st.
Proof. apply saveIntents_fields. Qed.
Lemma saveIntents_history rej st : intentHistory (saveIntents rej st) = intentHistory st.
Proof. apply saveIntents_fields. Qed.

Lemma perform_history_length (rej : Snapshot -> bool) (c : call) (st : Manager) :
  length (intentHistory (perform rej c st)) <= Nat.max 10 (length (intentHistory st)).
Proof.
  destruct c as [d i n|i p|i f|i|i]; cbn [perform].
  - unfold setCurrentIntent. rewrite saveIntents_history. cbn [intentHistory].
    destruct (Nat.ltb 10 (length (_ :: intentHistory st))) eqn:E.
    + rewrite length_take. lia.
    + apply Nat.ltb_ge in E. lia.
  - unfold updateIntentProgress. destruct (find_intent st i); [|lia].
    rewrite saveIntents_history. cbn. lia.
  - unfold addFileToIntent. destruct (find_intent st i); [|lia].
    destruct (array_includes _ f); [cbn; lia|].
    rewrite saveIntents_history. cbn. lia.
  - unfold completeIntent. destruct (find_intent st i); [|lia].
    rewrite saveIntents_history. cbn. lia.
  - unfold deleteIntent. rewrite saveIntents_history. cbn [intentHistory].
    pose proof (List.filter_length_le (fun l => negb (has_id st i l)) (intentHistory st)).
    lia.
Qed.

(** X25.  The history never grows beyond ten intents: whatever calls are
    made, its length stays at most ten, or at most what it was if a longer
    history had been loaded. *)
Theorem intent_history_bounded (rej : Snapshot -> bool) (cs : list call) (st : Manager) :
  length (intentHistory (perform_all rej cs st)) <= Nat.max 10 (length (intentHistory st)).
Proof.
  unfold perform_all. revert st. induction cs as [|c cs IH]; intros st; simpl; [lia|].
  etransitivity; [apply IH|].
  pose proof (perform_history_length rej c st). lia.
Qed.


Lemma zero_le_hundred : (Q2Qc (inject_Z 0) <= Q2Qc (inject_Z 100))%Qc.
Proof. unfold Qcle. vm_compute. discriminate. Qed.

Lemma clamp_clamped (p : jsnum) : clamped (Math_min (num 100) (Math_max (num 0) p)).
Proof.
  pose proof zero_le_hundred as H0.
  destruct p as [| |q|]; unfold num; cbn [Math_max Math_min num_leb]; [now left|..];
    repeat (destruct (Qclt_le_dec _ _); cbn [Math_min num_leb]);
    right; eexists; (split; [reflexivity|split]);
    first [apply Qcle_refl | exact H0 | assumption | now apply Qclt_le_weak].
Qed.

Lemma num_eqb_eq (a b : jsnum) : num_eqb a b = true -> a = b.
Proof.
  destruct a, b; cbn; try discriminate; try reflexivity.
  intros H. apply bool_decide_eq_true in H. now subst.
Qed.

Lemma num_eqb_finite (q : Qc) (p : jsnum) : p = Finite q -> num_eqb p (Finite q) = true.
Proof. intros ->. cbn. now apply bool_decide_eq_true. Qed.

Lemma hundred_clamped : clamped (num 100).
Proof.
  right. eexists; repeat split; [exact zero_le_hundred|apply Qcle_refl].
Qed.

Lemma zero_clamped : clamped (num 0).
Proof.
  right. eexists; repeat split; [apply Qcle_refl|exact zero_le_hundred].
Qed.

Lemma zero_not_hundred : num 0 <> num 100.
Proof. intros H. apply (f_equal (fun n => num_eqb n (num 100))) in H. vm_compute in H. discriminate. Qed.

Lemma store_ok_alter (f : Intent -> Intent) (l : nat) (st : Manager) :
  (forall o, progress_ok o -> progress_ok (f o)) ->
  store_ok st -> store_ok (with_store st (alter f l (store st))).
Proof.
  intros Hf Hst l' o'. cbn [with_store store].
  destruct (decide (l = l')) as [<-|Hne].
  - rewrite lookup_alter_eq. destruct (store st !! l) as [o|] eqn:E; [|discriminate].
    cbn. intros [= <-]. apply Hf. now apply (Hst l).
  - rewrite lookup_alter_ne by exact Hne. apply Hst.
Qed.

Lemma store_ok_save (rej : Snapshot -> bool) (st : Manager) :
  store_ok st -> store_ok (saveIntents rej st).
Proof. unfold store_ok. now rewrite saveIntents_store. Qed.

Lemma perform_store_ok (rej : Snapshot -> bool) (c : call) (st : Manager) :
  store_ok st -> store_ok (perform rej c st).
Proof.
  intros Hst. destruct c as [d i n|i p|i f|i|i]; cbn [perform].
  - unfold setCurrentIntent. apply store_ok_save. intros l o. cbn [store].
    destruct (decide (fresh (dom (store st)) = l)) as [<-|Hne].
    + rewrite lookup_insert_eq. intros [= <-]. unfold progress_ok. cbn.
      split; [apply zero_clamped|]. intros H. now apply zero_not_hundred in H.
    + rewrite lookup_insert_ne by exact Hne. apply Hst.
  - unfold updateIntentProgress. destruct (find_intent st i); [|exact Hst].
    apply store_ok_save, store_ok_alter; [|exact Hst].
    intros o _. pose proof (clamp_clamped p) as Hc.
    destruct (Math_min (num 100) (Math_max (num 0) p)) as [| |q|] eqn:Ep.
    all: destruct (num_eqb _ (num 100)) eqn:E; unfold progress_ok;
      cbn [intent_progress intent_completed set_progress set_completed];
      (split; [exact Hc|]); try reflexivity; intros H; rewrite H in E;
      vm_compute in E; discriminate.
  - unfold addFileToIntent. destruct (find_intent st i) as [l|]; [|exact Hst].
    assert (H1 : store_ok (with_store st (alter (fun o => match intent_files o with
                           | Some _ => o | None => set_files [] o end) l (store st)))).
    { apply store_ok_alter; [|exact Hst]. intros o Ho. now destruct (intent_files o). }
    destruct (array_includes _ f); [exact H1|].
    apply store_ok_save, store_ok_alter; [|exact H1]. intros o Ho. exact Ho.
  - unfold completeIntent. destruct (find_intent st i); [|exact Hst].
    apply store_ok_save, store_ok_alter; [|exact Hst].
    intros o _. unfold progress_ok. cbn. split; [apply hundred_clamped|reflexivity].
  - unfold deleteIntent. apply store_ok_save. exact Hst.
Qed.

Lemma getIntentHistory_In (st : Manager) (o : Intent) :
  In o (getIntentHistory st) -> exists l, In l (intentHistory st) /\ store st !! l = Some o.
Proof.
  unfold getIntentHistory. intros H. apply list_elem_of_In in H.
  apply list_elem_of_omap in H as (l & Hl & E). exists l. split; [now apply list_elem_of_In|exact E].
Qed.

(** X26.  Whatever calls are made, every intent the manager holds keeps a
    progress between 0 and 100 (or NaN, when NaN was passed in), and an
    intent whose progress is 100 is marked completed. *)
Theorem intent_progress_stays_clamped
  (rej : Snapshot -> bool) (cs : list call) (st : Manager) :
  store_ok st ->
  let st' := perform_all rej cs st in
  store_ok st' /\
  (forall o, getCurrentIntent st' = Some o -> progress_ok o) /\
  (forall o, In o (getIntentHistory st') -> progress_ok o).
Proof.
  intros Hst. cbv zeta.
  assert (H : store_ok (perform_all rej cs st)).
  { unfold perform_all. revert st Hst. induction cs as [|c cs IH]; intros st Hst; simpl.
    - exact Hst.
    - apply IH. now apply perform_store_ok. }
  split; [exact H|]. split.
  - intros o. unfold getCurrentIntent. destruct (currentIntent _) as [l|]; [|discriminate].
    apply H.
  - intros o Ho. apply getIntentHistory_In in Ho as (l & _ & E). now apply (H l).
Qed.

Lemma intent_progress_stays_clamped_witness :
  let st' := perform_all (fun _ => false)
               [SetIntent (js "ship") (js "i1") 7; UpdateProgress (js "i1") (num 250)]
               empty_manager in
  store_ok st' /\
  (forall o, getCurrentIntent st' = Some o -> progress_ok o) /\
  (forall o, In o (getIntentHistory st') -> progress_ok o).
Proof.
  apply (intent_progress_stays_clamped (fun _ => false)
           [SetIntent (js "ship") (js "i1") 7; UpdateProgress (js "i1") (num 250)]
           empty_manager).
  intros l o H. vm_compute in H. discriminate.
Defined.

Lemma has_id_store (st st' : Manager) (id : jstring) (l : nat) :
  store st' = store st -> has_id st' id l = has_id st id l.
Proof. unfold has_id, deref. now intros ->. Qed.

Lemma find_filter_negb {A} (P : A -> bool) (ls : list A) :
  find P (List.filter (fun x => negb (P x)) ls) = None.
Proof.
  induction ls as [|x ls IH]; [reflexivity|]. simpl.
  destruct (P x) eqn:E; simpl; [exact IH|]. now rewrite E.
Qed.

Lemma find_ext' {A} (P Q : A -> bool) (ls : list A) :
  (forall x, P x = Q x) -> find P ls = find Q ls.
Proof.
  intros H. induction ls as [|x ls IH]; [reflexivity|]. simpl. now rewrite H, IH.
Qed.

Lemma omap_filter_has_id (st : Manager) (id : jstring) (ls : list nat) :
  omap (deref st) (List.filter (fun l => negb (has_id st id l)) ls) =
  List.filter (fun o => negb (str_eqb (intent_id o) id)) (omap (deref st) ls).
Proof.
  induction ls as [|l ls IH]; [reflexivity|].
  cbn [List.filter omap list_omap]. unfold has_id at 1.
  destruct (deref st l) as [o|] eqn:E; cbn [negb List.filter omap list_omap].
  - destruct (str_eqb (intent_id o) id); cbn [negb List.filter omap list_omap].
    + exact IH.
    + rewrite E. f_equal. exact IH.
  - rewrite E. exact IH.
Qed.

Lemma getIntentHistory_save rej st : getIntentHistory (saveIntents rej st) = getIntentHistory st.
Proof.
  unfold getIntentHistory, deref. now rewrite saveIntents_history, saveIntents_store.
Qed.

Lemma getCurrentIntent_save rej st : getCurrentIntent (saveIntents rej st) = getCurrentIntent st.
Proof.
  unfold getCurrentIntent, deref. now rewrite saveIntents_current, saveIntents_store.
Qed.

Lemma find_intent_save rej st id : find_intent (saveIntents rej st) id = find_intent st id.
Proof.
  unfold find_intent. rewrite saveIntents_history. apply find_ext'. intros l.
  apply has_id_store, saveIntents_store.
Qed.

(** X27.  deleteIntent removes every history entry with the given id, keeps
    the others in order, clears the current intent exactly when it has that
    id, and afterwards a progress update, a file or a completion for that id
    changes nothing. *)
Theorem deleteIntent_removes_every_match (rej : Snapshot -> bool) (id : jstring) (st : Manager) :
  let st' := deleteIntent rej id st in
  getIntentHistory st' =
    List.filter (fun o => negb (str_eqb (intent_id o) id)) (getIntentHistory st) /\
  getCurrentIntent st' =
    match getCurrentIntent st with
    | Some o => if str_eqb (intent_id o) id then None else Some o
    | None => None
    end /\
  (forall p, updateIntentProgress rej id p st' = st') /\
  (forall f, addFileToIntent rej id f st' = st') /\
  completeIntent rej id st' = st'.
Proof.
  cbv zeta.
  assert (Hf : find_intent (deleteIntent rej id st) id = None).
  { unfold deleteIntent. rewrite find_intent_save. unfold find_intent. cbn [intentHistory].
    erewrite find_ext'; [apply (find_filter_negb (has_id st id))|].
    intros l. now apply has_id_store. }
  split; [|split; [|split; [|split]]].
  - unfold deleteIntent. rewrite getIntentHistory_save. unfold getIntentHistory.
    cbn [intentHistory]. rewrite <- omap_filter_has_id. reflexivity.
  - unfold deleteIntent. rewrite getCurrentIntent_save. unfold getCurrentIntent.
    cbn [currentIntent]. destruct (currentIntent st) as [l|]; [|reflexivity].
    unfold has_id, deref at 2 3. cbn [store].
    destruct (deref st l) as [o|] eqn:E; [|exact E].
    destruct (str_eqb (intent_id o) id); [reflexivity|exact E].
  - intros p. unfold updateIntentProgress. now rewrite Hf.
  - intros f. unfold addFileToIntent. now rewrite Hf.
  - unfold completeIntent. now rewrite Hf.
Qed.

Lemma perform_heads (rej : Snapshot -> bool) (c : call) (st : Manager) :
  current_heads_history st -> current_heads_history (perform rej c st).
Proof.
  unfold current_heads_history. intros H.
  destruct c as [d i n|i p|i f|i|i]; cbn [perform].
  - unfold setCurrentIntent. rewrite saveIntents_current, saveIntents_history.
    cbn [currentIntent intentHistory].
    destruct (Nat.ltb 10 _); reflexivity.
  - unfold updateIntentProgress. destruct (find_intent st i); [|exact H].
    now rewrite saveIntents_current, saveIntents_history.
  - unfold addFileToIntent. destruct (find_intent st i); [|exact H].
    destruct (array_includes _ f); [exact H|].
    now rewrite saveIntents_current, saveIntents_history.
  - unfold completeIntent. destruct (find_intent st i); [|exact H].
    now rewrite saveIntents_current, saveIntents_history.
  - unfold deleteIntent. rewrite saveIntents_current, saveIntents_history.
    cbn [currentIntent intentHistory].
    destruct (currentIntent st) as [l|]; [|exact I].
    destruct (has_id st i l) eqn:E; [exact I|].
    destruct (intentHistory st) as [|l' ls]; [discriminate H|].
    injection H as ->. simpl. now rewrite E.
Qed.

(** X28.  From a manager whose current intent is the head of its history
    (the empty one, for instance), every sequence of calls keeps it so; a
    progress update addressed to the current intent's id therefore reaches
    the very object getCurrentIntent returns. *)
Theorem current_intent_heads_history
  (rej : Snapshot -> bool) (cs : list call) (st : Manager) :
  current_heads_history st ->
  let st' := perform_all rej cs st in
  current_heads_history st' /\
  forall o p, getCurrentIntent st' = Some o ->
    getCurrentIntent (updateIntentProgress rej (intent_id o) p st') = Some (with_progress p o).
Proof.
  intros Hst. cbv zeta.
  assert (H : current_heads_history (perform_all rej cs st)).
  { unfold perform_all. revert st Hst. induction cs as [|c cs IH]; intros st Hst; simpl.
    - exact Hst.
    - apply IH. now apply perform_heads. }
  split; [exact H|]. intros o p.
  generalize dependent (perform_all rej cs st). intros st' H.
  unfold current_heads_history in H. unfold getCurrentIntent at 1.
  destruct (currentIntent st') as [l|] eqn:Ec; [|discriminate].
  intros Ho. destruct (intentHistory st') as [|l' ls] eqn:Eh; [discriminate H|].
  injection H as ->.
  assert (Hf : find_intent st' (intent_id o) = Some l).
  { unfold find_intent. rewrite Eh. simpl. unfold has_id. rewrite Ho.
    now rewrite str_eqb_refl. }
  unfold updateIntentProgress. rewrite Hf. rewrite getCurrentIntent_save.
  unfold getCurrentIntent. cbn [with_store currentIntent]. rewrite Ec.
  unfold deref. cbn [store with_store]. rewrite lookup_alter_eq.
  unfold deref in Ho. rewrite Ho. reflexivity.
Qed.

Lemma current_intent_heads_history_witness :
  let st' := perform_all (fun _ => false)
               [SetIntent (js "old") (js "i1") 1; SetIntent (js "new") (js "i2") 2;
                DeleteIntent (js "i1")]
               empty_manager in
  current_heads_history st' /\
  forall o p, getCurrentIntent st' = Some o ->
    getCurrentIntent (updateIntentProgress (fun _ => false) (intent_id o) p st') =
    Some (with_progress p o).
Proof.
  apply (current_intent_heads_history (fun _ => false)
           [SetIntent (js "old") (js "i1") 1; SetIntent (js "new") (js "i2") 2;
            DeleteIntent (js "i1")] empty_manager).
  exact I.
Defined.

Lemma array_includes_In (fs : list jstring) (x : jstring) :
  array_includes fs x = true <-> In x fs.
Proof.
  unfold array_includes. rewrite existsb_exists. split.
  - intros (y & Hy & E). apply str_eqb_eq in E. now subst.
  - intros H. exists x. split; [exact H|apply str_eqb_refl].
Qed.

Lemma find_has_id (st : Manager) (id : jstring) (l : nat) :
  find_intent st id = Some l -> exists o, deref st l = Some o /\ intent_id o = id.
Proof.
  unfold find_intent. intros H. apply find_some in H as [_ H]. unfold has_id in H.
  destruct (deref st l) as [o|]; [|discriminate]. exists o. split; [reflexivity|].
  now apply str_eqb_eq.
Qed.

Lemma set_files_same (o : Intent) (fs : list jstring) :
  intent_files o = Some fs -> set_files fs o = o.
Proof. destruct o. cbn. now intros ->. Qed.

Lemma files_of_set_files (fs : list jstring) (o : Intent) :
  files_of (set_files fs o) = fs.
Proof. reflexivity. Qed.

Lemma with_store_same (st : Manager) : with_store st (store st) = st.
Proof. now destruct st. Qed.

Lemma addFileToIntent_object (rej : Snapshot -> bool) (id f : jstring) (st : Manager)
  (l : nat) (o : Intent) :
  find_intent st id = Some l -> deref st l = Some o ->
  store (addFileToIntent rej id f st) =
  <[l := set_files (if array_includes (files_of o) f then files_of o
                    else files_of o ++ [f]) o]> (store st).
Proof.
  intros Hf Ho. unfold addFileToIntent. rewrite Hf. unfold deref in *.
  cbn [with_store store]. rewrite lookup_alter_eq, Ho. cbn [fmap option_fmap option_map].
  unfold files_of.
  destruct (intent_files o) as [fs|] eqn:Efs; cbn [default from_option]; unfold Datatypes.id.
  - rewrite Efs. cbn [default from_option]; unfold Datatypes.id.
    assert (Ha : alter (fun o0 => match intent_files o0 with
                                  | Some _ => o0 | None => set_files [] o0 end) l (store st)
                 = store st).
    { apply alter_id. intros x Hx. rewrite Ho in Hx. injection Hx as <-. now rewrite Efs. }
    rewrite Ha.
    destruct (array_includes fs f) eqn:Ei.
    + cbn [with_store store]. rewrite (set_files_same o fs Efs).
      symmetry. now apply insert_id.
    + rewrite saveIntents_store. cbn [with_store store].
      apply map_eq. intros l'. destruct (decide (l = l')) as [<-|Hne].
      * now rewrite lookup_alter_eq, lookup_insert_eq, Ho.
      * now rewrite lookup_alter_ne, lookup_insert_ne.
  - cbn [set_files intent_files default from_option array_includes existsb]; unfold Datatypes.id.
    rewrite saveIntents_store. cbn [with_store store app].
    apply map_eq. intros l'. destruct (decide (l = l')) as [<-|Hne].
    + rewrite !lookup_alter_eq, lookup_insert_eq, Ho. cbn [fmap option_fmap option_map].
      rewrite Efs. reflexivity.
    + now rewrite !lookup_alter_ne, lookup_insert_ne.
Qed.

Lemma addFileToIntent_refs (rej : Snapshot -> bool) (id f : jstring) (st : Manager) :
  currentIntent (addFileToIntent rej id f st) = currentIntent st /\
  intentHistory (addFileToIntent rej id f st) = intentHistory st.
Proof.
  unfold addFileToIntent. destruct (find_intent st id); [|now split].
  destruct (array_includes _ f); [now split|].
  now rewrite saveIntents_current, saveIntents_history.
Qed.

(** X29.  addFileToIntent lists a file on the first intent with the given id
    and lists it once: a file already listed leaves the list as it is, a new
    one goes to its end, no other object changes, and adding the same file
    again changes no intent. *)
Theorem addFileToIntent_lists_file_once
  (rej : Snapshot -> bool) (id f : jstring) (st : Manager) (l : nat) :
  find_intent st id = Some l ->
  let st' := addFileToIntent rej id f st in
  exists o,
    deref st l = Some o /\
    deref st' l = Some (set_files (if array_includes (files_of o) f then files_of o
                                   else files_of o ++ [f]) o) /\
    (forall l', l' <> l -> deref st' l' = deref st l') /\
    (forall o', deref st' l = Some o' ->
       In f (files_of o') /\ (NoDup (files_of o) -> NoDup (files_of o'))) /\
    store (addFileToIntent rej id f st') = store st'.
Proof.
  intros Hf. cbv zeta. destruct (find_has_id st id l Hf) as (o & Ho & Hid).
  exists o. pose proof (addFileToIntent_object rej id f st l o Hf Ho) as Hs.
  assert (Hl : deref (addFileToIntent rej id f st) l =
               Some (set_files (if array_includes (files_of o) f then files_of o
                                else files_of o ++ [f]) o)).
  { unfold deref. rewrite Hs. apply lookup_insert_eq. }
  assert (Hin : In f (if array_includes (files_of o) f then files_of o
                      else files_of o ++ [f])).
  { destruct (array_includes (files_of o) f) eqn:Ei.
    - now apply array_includes_In.
    - apply in_or_app. right. now left. }
  split; [exact Ho|]. split; [exact Hl|]. split; [|split].
  - intros l' Hne. unfold deref. rewrite Hs. now apply lookup_insert_ne.
  - intros o' Ho'. rewrite Hl in Ho'. injection Ho' as <-.
    rewrite files_of_set_files.
    split; [exact Hin|]. intros Hnd.
    destruct (array_includes (files_of o) f) eqn:Ei; [exact Hnd|].
    apply NoDup_app. split; [exact Hnd|]. split; [|apply NoDup_singleton].
    intros x Hx Hx'. apply list_elem_of_singleton in Hx'. subst x.
    apply list_elem_of_In, array_includes_In in Hx. congruence.
  - assert (Hf' : find_intent (addFileToIntent rej id f st) id = Some l).
    { unfold find_intent. rewrite (proj2 (addFileToIntent_refs rej id f st)).
      rewrite <- Hf. unfold find_intent. apply find_ext'. intros l'.
      unfold has_id, deref. rewrite Hs.
      destruct (decide (l = l')) as [<-|Hne].
      - rewrite lookup_insert_eq. unfold deref in Ho. now rewrite Ho.
      - now rewrite lookup_insert_ne. }
    rewrite (addFileToIntent_object rej id f _ l _ Hf' Hl).
    rewrite files_of_set_files.
    apply array_includes_In in Hin. rewrite Hin.
    rewrite Hs. rewrite insert_insert_eq. reflexivity.
Qed.

Lemma addFileToIntent_lists_file_once_witness :
  let st := setCurrentIntent (fun _ => false) (js "ship") (js "i1") 7 empty_manager in
  let st' := addFileToIntent (fun _ => false) (js "i1") (js "a.ts") st in
  exists o,
    deref st 0 = Some o /\
    deref st' 0 = Some (set_files (if array_includes (files_of o) (js "a.ts") then files_of o
                                   else files_of o ++ [js "a.ts"]) o) /\
    (forall l', l' <> 0 -> deref st' l' = deref st l') /\
    (forall o', deref st' 0 = Some o' ->
       In (js "a.ts") (files_of o') /\ (NoDup (files_of o) -> NoDup (files_of o'))) /\
    store (addFileToIntent (fun _ => false) (js "i1") (js "a.ts") st') = store st'.
Proof.
  apply (addFileToIntent_lists_file_once (fun _ => false) (js "i1") (js "a.ts")
           (setCurrentIntent (fun _ => false) (js "ship") (js "i1") 7 empty_manager) 0).
  vm_compute. reflexivity.
Defined.

Lemma snapshot_save rej st : snapshot (saveIntents rej st) = snapshot st.
Proof. unfold snapshot. now rewrite getCurrentIntent_save, getIntentHistory_save. Qed.

Lemma saveIntents_loaded (rej : Snapshot -> bool) (st : Manager) :
  (forall s, rej s = false) ->
  loaded (saved (saveIntents rej st)) = snapshot (saveIntents rej st).
Proof.
  intros Hr. rewrite snapshot_save. unfold saveIntents. now rewrite Hr.
Qed.

Lemma perform_loaded (rej : Snapshot -> bool) (c : call) (st : Manager) :
  (forall s, rej s = false) ->
  loaded (saved st) = snapshot st ->
  loaded (saved (perform rej c st)) = snapshot (perform rej c st).
Proof.
  intros Hr H. destruct c as [d i n|i p|i f|i|i]; cbn [perform].
  - now apply saveIntents_loaded.
  - unfold updateIntentProgress. destruct (find_intent st i); [|exact H].
    now apply saveIntents_loaded.
  - unfold addFileToIntent. destruct (find_intent st i) as [l|] eqn:Ef; [|exact H].
    destruct (array_includes _ f) eqn:Ei; [|now apply saveIntents_loaded].
    destruct (find_has_id st i l Ef) as (o & Ho & _).
    unfold deref in Ei, Ho. cbn [with_store store] in Ei.
    rewrite lookup_alter_eq, Ho in Ei. cbn [fmap option_fmap option_map] in Ei.
    destruct (intent_files o) as [fs|] eqn:Efs; [|discriminate Ei].
    rewrite alter_id, with_store_same; [exact H|].
    intros x Hx. rewrite Ho in Hx. injection Hx as <-. now rewrite Efs.
  - unfold completeIntent. destruct (find_intent st i); [|exact H].
    now apply saveIntents_loaded.
  - now apply saveIntents_loaded.
Qed.

(** X30.  While globalState.update does not reject, what is stored follows
    the manager: after any sequence of calls, loading the stored value gives
    the current intent and the history the manager holds. *)
Theorem stored_intents_follow_manager
  (rej : Snapshot -> bool) (cs : list call) (st : Manager) :
  (forall s, rej s = false) ->
  loaded (saved st) = snapshot st ->
  loaded (saved (perform_all rej cs st)) = snapshot (perform_all rej cs st).
Proof.
  intros Hr. unfold perform_all. revert st.
  induction cs as [|c cs IH]; intros st H; simpl; [exact H|].
  apply IH. now apply perform_loaded.
Qed.

Lemma stored_intents_follow_manager_witness :
  loaded (saved (perform_all (fun _ => false)
                   [SetIntent (js "ship") (js "i1") 7; AddFile (js "i1") (js "a.ts");
                    CompleteIntent (js "i1")] empty_manager)) =
  snapshot (perform_all (fun _ => false)
              [SetIntent (js "ship") (js "i1") 7; AddFile (js "i1") (js "a.ts");
               CompleteIntent (js "i1")] empty_manager).
Proof.
  apply (stored_intents_follow_manager (fun _ => false)
           [SetIntent (js "ship") (js "i1") 7; AddFile (js "i1") (js "a.ts");
            CompleteIntent (js "i1")] empty_manager).
  - intros s. reflexivity.
  - reflexivity.
Defined.
